(** * ZMK provisioning through the SNVS register window (zmk/zmk.c)

    A shallow embedding of [main] of zmk.c.  The program is a straight
    sequence of loads and stores on the memory-mapped SNVS registers,
    interleaved with [printf] lines and guarded by nested [if]s, some of
    which leave through [return -1].

    - A register holds a C [int]; it is a [Z] here and the conversions
      between [int], [unsigned int] and [unsigned char] are written out
      ([i32], [u32], [u8]).
    - The register window is an interface ([RegisterWindow]) with a raw
      load and a raw store; what a store does to later loads is up to
      the device behind the window.  A load does not change the window.
      [ram] is the plain-memory instance, where a load yields the last
      word stored.
    - [main] runs in a state monad over the window and the list of
      observable events (loads, stores, printed lines, and the passes
      of the wait loop on its [volatile] counter), with an early
      [Return] for the C [return] statement.  The arguments of a
      [printf] are loaded from left to right.
    - What [open] and [mmap] answered is an input of [main]
      ([startup]). *)

From Stdlib Require Import ZArith List Lia Bool.
From stdpp Require Import base gmap.
Import ListNotations.

Local Open Scope Z_scope.

(** ** C integer conversions *)

(** [(unsigned int) x] *)
Definition u32 (x : Z) : Z := x mod 2 ^ 32.

(** [(int) x] on a two's complement machine *)
Definition i32 (x : Z) : Z :=
  let u := x mod 2 ^ 32 in if u <? 2 ^ 31 then u else u - 2 ^ 32.

(** [(unsigned char) x] *)
Definition u8 (x : Z) : Z := x mod 2 ^ 8.

Definition int_range (x : Z) : Prop := - 2 ^ 31 <= x < 2 ^ 31.

(** [a | (unsigned int) b] for an [int a], assigned to an [int]. *)
Definition or32 (a b : Z) : Z := i32 (Z.lor (u32 a) (u32 b)).

(** ** The macros of zmk.c (lines 84-146) *)

Definition POR : Z := 0x1000.
Definition SYSTEM_RESET : Z := 0x2000.
Definition RESET : Z := POR.

Definition SNVS_HPLR : Z := 0x0.
Definition ZMK_WSL_MASK : Z := 0x1.
Definition ZMK_WSL_OFFSET : Z := 0.
Definition ZMK_RSL_MASK : Z := 0x2.
Definition ZMK_RSL_OFFSET : Z := 1.
Definition MKS_SL_MASK : Z := 0x0200.
Definition MKS_SL_OFFSET : Z := 9.

Definition SNVS_HPCOMR : Z := 0x4.
Definition MKS_EN_MASK : Z := 0x00002000.
Definition MKS_EN_OFFSET : Z := 13.

Definition SNVS_HPCR : Z := 0x8.

Definition SNVS_HPSR : Z := 0x14.
Definition SSM_ST_MASK : Z := 0x00000F00.
Definition SSM_ST_OFFSET : Z := 8.

Definition SNVS_LPLR : Z := 0x34.
Definition ZMK_WHL_MASK : Z := 0x1.
Definition ZMK_WHL_OFFSET : Z := 0.
Definition ZMK_RHL_MASK : Z := 0x2.
Definition ZMK_RHL_OFFSET : Z := 1.
Definition MKS_HL_MASK : Z := 0x200.
Definition MKS_HL_OFFSET : Z := 9.

Definition SNVS_LPMKCR : Z := 0x3C.
Definition ZMK_HWP_MASK : Z := 0x4.
Definition ZMK_HWP_OFFSET : Z := 2.
Definition ZMK_VAL_MASK : Z := 0x8.
Definition ZMK_VAL_OFFSET : Z := 3.
Definition MASTER_KEY_SEL_VALUE : Z := 0x2.
Definition ZMK_ECC_EN : Z := 0x10.

Definition SNVS_LPSR : Z := 0x4c.
Definition PGD_MASK : Z := 0x8.

Definition SNVS_LPPGDR : Z := 0x64.
Definition POWER_GLITCH_VALUE : Z := 0x41736166.

Definition SNVS_LPZMKRn : Z := 0x6c.
Definition ZMK_VALUE : Z := 0x11223344.

Definition SNVS_HPVIDR1 : Z := 0xBF8.
Definition IP_ID_MASK : Z := 0xFFFF0000.
Definition IP_ID_OFFSET : Z := 16.
Definition MAJOR_REV_MASK : Z := 0x0000FF00.
Definition MAJOR_REV_OFFSET : Z := 8.
Definition MINOR_REV_MASK : Z := 0x000000FF.
Definition MINOR_REV_OFFSET : Z := 0.

Definition SNVS_HPVIDR2 : Z := 0xBFC.

(** line 281 *)
Definition TIMEOUT_MAX_VAL : Z := 0x1000.

(** ** Observable events *)

(** One constructor per [printf]/[perror] call of [main], named after the
    source line of the call. *)
Inductive line : Type :=
  | L154_banner
  | L158_cannot_open
  | L164_cannot_map
  | L171_hpvidr
  | L172_hpvidr1_fields
  | L177_key_before
  | L178_hplr
  | L179_lplr
  | L182_a1
  | L188_non_secure
  | L191_trusted
  | L194_secure
  | L197_undefined_mode
  | L202_a2
  | L203_lppgdr_before
  | L205_lppgdr_after
  | L208_a3
  | L209_lpsr_before
  | L211_lpsr_after
  | L214_b1
  | L215_lpmkcr_before
  | L219_hwp_not_set
  | L222_b2
  | L224_hplr_before
  | L225_lplr_before
  | L237_soft_locks_not_set
  | L240_hard_locks_not_set
  | L242_mks_hl_not_set
  | L244_zmk_rhl_not_set
  | L246_b3
  | L248_key_before_write
  | L252_b4
  | L254_success_key_matches
  | L256_b5
  | L258_lpmkcr_before
  | L260_lpmkcr_after
  | L262_b6
  | L266_b7
  | L267_b8
  | L285_security_check
  | L287_passed_zeroized
  | L290_failed_not_zeroized
  | L293_b9
  | L294_mks_info
  | L296_lpmkcr_after
  | L298_hpcomr_before
  | L300_hpcomr_after
  | L302_b10
  | L314_error_key_mismatch
  | L318_error_hard_locks
  | L324_error_soft_locks
  | L330_error_hwp
  | L336_error_ssm.

(** What a run does that can be seen, in order: a load of a register
    with the [int] it yields, a store of an [int] to a register, a
    printed line with its [%x] arguments, and a pass through the body of
    the loop of line 283 with the value that the counter has in it.  The
    counter is [volatile]: its accesses are effects of the program that
    a compiler has to keep, one round of them for each pass. *)
Inductive event : Type :=
  | ELoad (off v : Z)
  | EStore (off v : Z)
  | EPrint (l : line) (args : list Z)
  | ESpin (i : Z).

(** ** The register window *)

(** Raw access to the mapped range: [load w off] is the word at byte
    offset [off], [store w off v] the window after writing [v] there.
    The device behind the window decides what a store does. *)
Class RegisterWindow (W : Type) : Type := {
  load : W -> Z -> Z;
  store : W -> Z -> Z -> W
}.

(** How [main] came to its window: lines 156-166. *)
Inductive startup : Type :=
  | OpenFailed     (* open returned fd < 0 *)
  | MapFailed      (* mmap returned MAP_FAILED *)
  | Mapped.

(** ** The monad of [main] *)

Record world (W : Type) : Type := World { dev : W; out : list event }.
Arguments World {W} _ _.
Arguments dev {W} _.
Arguments out {W} _.

(** A statement either falls through to the next one or executes
    [return code]. *)
Inductive res (A : Type) : Type :=
  | Next (a : A)
  | Returned (code : Z).
Arguments Next {A} _.
Arguments Returned {A} _.

Definition M (W A : Type) : Type := world W -> res A * world W.

Definition ret {W A} (a : A) : M W A := fun s => (Next a, s).

Definition bind {W A B} (m : M W A) (k : A -> M W B) : M W B :=
  fun s => match m s with
           | (Next a, s') => k a s'
           | (Returned c, s') => (Returned c, s')
           end.

Definition Return {W A} (code : Z) : M W A := fun s => (Returned code, s).

Declare Scope prog_scope.
Delimit Scope prog_scope with prog.
Notation "x <- m ;; k" := (bind m (fun x => k))
  (at level 100, m at next level, right associativity) : prog_scope.
Notation "m ;; k" := (bind m (fun _ => k))
  (at level 100, right associativity) : prog_scope.
Local Open Scope prog_scope.

Section Program.
Context {W : Type} `{RegisterWindow W}.

Definition emit (e : event) : M W unit :=
  fun s => (Next tt, World (dev s) (out s ++ [e])).

Definition printf (l : line) (args : list Z) : M W unit :=
  emit (EPrint l args).

(** line 149, dereferenced as an rvalue: the [int] at [mem + off]. *)
Definition get_SNVS_reg (off : Z) : M W Z :=
  fun s => let v := i32 (load (dev s) off) in
           (Next v, World (dev s) (out s ++ [ELoad off v])).

(** line 149, dereferenced as an lvalue and assigned [v]. *)
Definition put_SNVS_reg (off v : Z) : M W unit :=
  fun s => (Next tt, World (store (dev s) off v) (out s ++ [EStore off v])).

(** line 148: the [int] at [mem + off], masked with [field] and
    shifted right by [offset].  Every mask of the program is a
    non-negative constant below 2^32, so that [Z.land] on the [int] is
    the C [&] also for [IP_ID_MASK], the one mask that makes C convert
    the [int] to [unsigned int] first, and the shift is of a
    non-negative number. *)
Definition get_value_of_SNVS_reg_field (off field offset : Z) : M W Z :=
  v <- get_SNVS_reg off ;;
  ret (Z.shiftr (Z.land v field) offset).

(** line 150: the register is loaded, ORed with [(unsigned int) value]
    and the result is stored back as an [int]. *)
Definition set_value_of_SNVS_reg (off value : Z) : M W unit :=
  v <- get_SNVS_reg off ;;
  put_SNVS_reg off (or32 v value).

(** line 283, [for (...; i < TIMEOUT_MAX_VAL; i++) {}] from counter [i]
    on: while the guard holds, one pass through the empty body, recorded
    with the counter it runs at, then the increment.  The recursion is
    on the loop variant [TIMEOUT_MAX_VAL - i]; the result is the counter
    the loop ends with. *)
Fixpoint for_loop (variant : nat) (i : Z) : M W Z :=
  if i <? TIMEOUT_MAX_VAL then
    match variant with
    | O => ret i
    | S variant' => emit (ESpin i) ;; for_loop variant' (i + 1)
    end
  else ret i.

(** lines 282-283: [volatile int i = 0; for (i = 0; ...)]. *)
Definition busy_wait : M W Z :=
  for_loop (Z.to_nat (TIMEOUT_MAX_VAL - 0)) 0.

(** lines 153-341 *)
Definition main_body (boot : startup) : M W unit :=
  printf L154_banner [] ;;
  match boot with
  | OpenFailed => printf L158_cannot_open [] ;; Return (-1)
  | MapFailed => printf L164_cannot_map [] ;; Return (-1)
  | Mapped =>
  r1 <- get_SNVS_reg SNVS_HPVIDR1 ;;
  let rev1 := u32 r1 in
  r2 <- get_SNVS_reg SNVS_HPVIDR2 ;;
  let rev2 := u32 r2 in
  printf L171_hpvidr [rev1; rev2] ;;
  ip <- get_value_of_SNVS_reg_field SNVS_HPVIDR1 IP_ID_MASK IP_ID_OFFSET ;;
  major <- get_value_of_SNVS_reg_field SNVS_HPVIDR1 MAJOR_REV_MASK MAJOR_REV_OFFSET ;;
  minor <- get_value_of_SNVS_reg_field SNVS_HPVIDR1 MINOR_REV_MASK MINOR_REV_OFFSET ;;
  printf L172_hpvidr1_fields [ip; major; minor] ;;
  k0 <- get_SNVS_reg SNVS_LPZMKRn ;;
  printf L177_key_before [k0] ;;
  h0 <- get_SNVS_reg SNVS_HPLR ;;
  printf L178_hplr [h0] ;;
  l0 <- get_SNVS_reg SNVS_LPLR ;;
  printf L179_lplr [l0] ;;
  (* A.1 *)
  printf L182_a1 [] ;;
  f <- get_value_of_SNVS_reg_field SNVS_HPSR SSM_ST_MASK SSM_ST_OFFSET ;;
  let SSM_state := u8 f in
  if SSM_state >=? 0xB then
    (if SSM_state =? 0xb then printf L188_non_secure []
     else if SSM_state =? 0xd then printf L191_trusted []
     else if SSM_state =? 0xf then printf L194_secure []
     else (printf L197_undefined_mode [] ;; Return (-1))) ;;
    (* A.2 *)
    printf L202_a2 [] ;;
    g0 <- get_SNVS_reg SNVS_LPPGDR ;;
    printf L203_lppgdr_before [g0] ;;
    set_value_of_SNVS_reg SNVS_LPPGDR POWER_GLITCH_VALUE ;;
    g1 <- get_SNVS_reg SNVS_LPPGDR ;;
    printf L205_lppgdr_after [g1] ;;
    (* A.3 *)
    printf L208_a3 [] ;;
    s0 <- get_SNVS_reg SNVS_LPSR ;;
    printf L209_lpsr_before [s0] ;;
    set_value_of_SNVS_reg SNVS_LPSR PGD_MASK ;;
    s1 <- get_SNVS_reg SNVS_LPSR ;;
    printf L211_lpsr_after [s1] ;;
    (* B.1 *)
    printf L214_b1 [] ;;
    m0 <- get_SNVS_reg SNVS_LPMKCR ;;
    printf L215_lpmkcr_before [m0] ;;
    f <- get_value_of_SNVS_reg_field SNVS_LPMKCR ZMK_HWP_MASK ZMK_HWP_OFFSET ;;
    let ZMK_HWP_state := u8 f in
    if ZMK_HWP_state =? 0x0 then
      printf L219_hwp_not_set [] ;;
      (* B.2 *)
      printf L222_b2 [] ;;
      h1 <- get_SNVS_reg SNVS_HPLR ;;
      printf L224_hplr_before [h1] ;;
      l1 <- get_SNVS_reg SNVS_LPLR ;;
      printf L225_lplr_before [l1] ;;
      f <- get_value_of_SNVS_reg_field SNVS_HPLR ZMK_WSL_MASK ZMK_WSL_OFFSET ;;
      let ZMK_WSL_state := u8 f in
      f <- get_value_of_SNVS_reg_field SNVS_HPLR ZMK_RSL_MASK ZMK_RSL_OFFSET ;;
      let ZMK_RSL_state := u8 f in
      f <- get_value_of_SNVS_reg_field SNVS_HPLR MKS_SL_MASK MKS_SL_OFFSET ;;
      let MKS_SL_state := u8 f in
      f <- get_value_of_SNVS_reg_field SNVS_LPLR MKS_HL_MASK MKS_HL_OFFSET ;;
      let MKS_HL_state := u8 f in
      f <- get_value_of_SNVS_reg_field SNVS_LPLR ZMK_RHL_MASK ZMK_RHL_OFFSET ;;
      let ZMK_RHL_state := u8 f in
      f <- get_value_of_SNVS_reg_field SNVS_LPLR ZMK_WHL_MASK ZMK_WHL_OFFSET ;;
      let ZMK_WHL_state := u8 f in
      if (ZMK_WSL_state =? 0x0) && (ZMK_RSL_state =? 0x0) && (MKS_SL_state =? 0x0) then
        printf L237_soft_locks_not_set [] ;;
        if (ZMK_WHL_state =? 0x0) && (ZMK_RHL_state =? 0x0) && (MKS_HL_state =? 0x0) then
          printf L240_hard_locks_not_set [] ;;
          printf L242_mks_hl_not_set [] ;;
          printf L244_zmk_rhl_not_set [] ;;
          (* B.3 *)
          printf L246_b3 [] ;;
          k1 <- get_SNVS_reg SNVS_LPZMKRn ;;
          printf L248_key_before_write [ZMK_VALUE; k1] ;;
          set_value_of_SNVS_reg SNVS_LPZMKRn ZMK_VALUE ;;
          (* B.4 *)
          printf L252_b4 [] ;;
          k2 <- get_SNVS_reg SNVS_LPZMKRn ;;
          if k2 =? ZMK_VALUE then
            k3 <- get_SNVS_reg SNVS_LPZMKRn ;;
            printf L254_success_key_matches [k3] ;;
            (* B.5 *)
            printf L256_b5 [] ;;
            m1 <- get_SNVS_reg SNVS_LPMKCR ;;
            printf L258_lpmkcr_before [m1] ;;
            set_value_of_SNVS_reg SNVS_LPMKCR ZMK_VAL_MASK ;;
            m2 <- get_SNVS_reg SNVS_LPMKCR ;;
            printf L260_lpmkcr_after [m2] ;;
            (* B.6 *)
            printf L262_b6 [] ;;
            set_value_of_SNVS_reg SNVS_LPMKCR ZMK_ECC_EN ;;
            (* B.7, B.8 *)
            printf L266_b7 [] ;;
            printf L267_b8 [] ;;
            (if RESET =? POR then
               set_value_of_SNVS_reg SNVS_LPLR ZMK_RHL_MASK ;;
               set_value_of_SNVS_reg SNVS_LPLR ZMK_WHL_MASK
             else
               set_value_of_SNVS_reg SNVS_HPLR ZMK_RSL_MASK ;;
               set_value_of_SNVS_reg SNVS_HPLR ZMK_WSL_MASK) ;;
            busy_wait ;;
            printf L285_security_check [] ;;
            k4 <- get_SNVS_reg SNVS_LPZMKRn ;;
            (if k4 =? 0x0 then
               printf L287_passed_zeroized []
             else
               k5 <- get_SNVS_reg SNVS_LPZMKRn ;;
               printf L290_failed_not_zeroized [k5]) ;;
            (* B.9 *)
            printf L293_b9 [] ;;
            printf L294_mks_info [] ;;
            set_value_of_SNVS_reg SNVS_LPMKCR MASTER_KEY_SEL_VALUE ;;
            m3 <- get_SNVS_reg SNVS_LPMKCR ;;
            printf L296_lpmkcr_after [m3] ;;
            c0 <- get_SNVS_reg SNVS_HPCOMR ;;
            printf L298_hpcomr_before [c0] ;;
            set_value_of_SNVS_reg SNVS_HPCOMR MKS_EN_MASK ;;
            c1 <- get_SNVS_reg SNVS_HPCOMR ;;
            printf L300_hpcomr_after [c1] ;;
            (* B.10 *)
            printf L302_b10 [] ;;
            (if RESET =? POR then
               set_value_of_SNVS_reg SNVS_LPLR MKS_HL_MASK
             else
               set_value_of_SNVS_reg SNVS_HPLR MKS_SL_MASK)
          else
            k3 <- get_SNVS_reg SNVS_LPZMKRn ;;
            printf L314_error_key_mismatch [k3]
        else
          printf L318_error_hard_locks [] ;;
          Return (-1)
      else
        printf L324_error_soft_locks [] ;;
        Return (-1)
    else
      printf L330_error_hwp [] ;;
      Return (-1)
  else
    printf L336_error_ssm [] ;;
    Return (-1)
  end.

(** [main]: the body, then line 340 [return 0] when no [return] was
    executed before.  The result is the exit status with the final
    window and the recorded events. *)
Definition main (boot : startup) (w : W) : Z * world W :=
  match (main_body boot ;; Return 0) (World w []) with
  | (Returned c, s) => (c, s)
  | (Next tt, s) => (0, s)
  end.

Definition exit_status (boot : startup) (w : W) : Z := fst (main boot w).
Definition final (boot : startup) (w : W) : W := dev (snd (main boot w)).
Definition events (boot : startup) (w : W) : list event := out (snd (main boot w)).

End Program.

(** ** Plain memory as a register window *)

(** A store keeps the word; unwritten offsets read 0. *)
Abbreviation ram := (gmap Z Z).

#[global] Instance ram_window : RegisterWindow ram := {
  load m off := default 0 (m !! off);
  store m off v := <[off := v]> m
}.

(** ** Reading the events *)

(** The stores of a run, in order: register and stored word. *)
Fixpoint stores (t : list event) : list (Z * Z) :=
  match t with
  | [] => []
  | EStore off v :: t' => (off, v) :: stores t'
  | _ :: t' => stores t'
  end.

Scheme Equality for line.

(** Whether line [l] was printed. *)
Fixpoint printed (l : line) (t : list event) : bool :=
  match t with
  | [] => false
  | EPrint l' _ :: t' => line_beq l l' || printed l t'
  | _ :: t' => printed l t'
  end.

(** The events from the first store to register [off] on (that store
    excluded); [None] when [off] is never stored to. *)
Fixpoint after_store (off : Z) (t : list event) : option (list event) :=
  match t with
  | [] => None
  | EStore off' _ :: t' => if off' =? off then Some t' else after_store off t'
  | _ :: t' => after_store off t'
  end.

(** The word yielded by the first load of a run, if any. *)
Fixpoint first_load (t : list event) : option (Z * Z) :=
  match t with
  | [] => None
  | ELoad off v :: _ => Some (off, v)
  | _ :: t' => first_load t'
  end.

(** The read that immediately follows the write of the key register
    (lines 250 and 253). *)
Definition key_read_back (t : list event) : option Z :=
  match after_store SNVS_LPZMKRn t with
  | Some t' =>
      match first_load t' with
      | Some (off, v) => if off =? SNVS_LPZMKRn then Some v else None
      | None => None
      end
  | None => None
  end.

(** The events from the first print of line [l] on. *)
Fixpoint after_line (l : line) (t : list event) : option (list event) :=
  match t with
  | [] => None
  | EPrint l' _ :: t' => if line_beq l l' then Some t' else after_line l t'
  | _ :: t' => after_line l t'
  end.

(** Whether some store went to register [off]. *)
Definition stored_to (off : Z) (t : list event) : bool :=
  existsb (fun p => fst p =? off) (stores t).

(** Whether some store put a word with bit 4 set, the bit of
    [ZMK_ECC_EN], into [SNVS_LPMKCR]. *)
Definition writes_ecc_en (t : list event) : bool :=
  existsb (fun p => (fst p =? SNVS_LPMKCR) && Z.testbit (snd p) 4) (stores t).

(** Every store comes right after a load of the same register and
    stores the loaded word ORed with some bits. *)
Fixpoint rmw_only (t : list event) : Prop :=
  match t with
  | [] => True
  | ELoad off old :: t1 =>
      match t1 with
      | EStore off' v :: t2 =>
          off' = off /\ (exists bits, v = Z.lor old bits) /\ rmw_only t2
      | _ => rmw_only t1
      end
  | EStore _ _ :: _ => False
  | EPrint _ _ :: t1 => rmw_only t1
  | ESpin _ :: t1 => rmw_only t1
  end.

(** [a] has no bit that [b] lacks. *)
Definition bits_le (a b : Z) : Prop := Z.land a b = a.

(** ** The window at the points of a run *)

Section Points.
Context {W : Type} `{RegisterWindow W}.

(** The [int] a load of register [off] yields in window [w]. *)
Definition peek (w : W) (off : Z) : Z := i32 (load w off).

(** The [unsigned char] that line 148 yields for a field. *)
Definition field (w : W) (off mask offset : Z) : Z :=
  u8 (Z.shiftr (Z.land (peek w off) mask) offset).

(** The window after line 150. *)
Definition set_bits (w : W) (off value : Z) : W :=
  store w off (or32 (peek w off) value).

Definition SSM_state (w : W) : Z :=
  field w SNVS_HPSR SSM_ST_MASK SSM_ST_OFFSET.

(** The three cases of the [switch] of line 186. *)
Definition ssm_functional (w : W) : bool :=
  (SSM_state w =? 0xb) || (SSM_state w =? 0xd) || (SSM_state w =? 0xf).

Definition ZMK_HWP_state (w : W) : Z :=
  field w SNVS_LPMKCR ZMK_HWP_MASK ZMK_HWP_OFFSET.

(** line 235 *)
Definition soft_locks_clear (w : W) : bool :=
  (field w SNVS_HPLR ZMK_WSL_MASK ZMK_WSL_OFFSET =? 0x0)
  && (field w SNVS_HPLR ZMK_RSL_MASK ZMK_RSL_OFFSET =? 0x0)
  && (field w SNVS_HPLR MKS_SL_MASK MKS_SL_OFFSET =? 0x0).

(** line 239 *)
Definition hard_locks_clear (w : W) : bool :=
  (field w SNVS_LPLR ZMK_WHL_MASK ZMK_WHL_OFFSET =? 0x0)
  && (field w SNVS_LPLR ZMK_RHL_MASK ZMK_RHL_OFFSET =? 0x0)
  && (field w SNVS_LPLR MKS_HL_MASK MKS_HL_OFFSET =? 0x0).

(** After A.2 and A.3 (lines 204 and 210). *)
Definition conditioned (w : W) : W :=
  set_bits (set_bits w SNVS_LPPGDR POWER_GLITCH_VALUE) SNVS_LPSR PGD_MASK.

(** After B.3 (line 250). *)
Definition keyed (w : W) : W :=
  set_bits (conditioned w) SNVS_LPZMKRn ZMK_VALUE.

(** After B.5 to B.8 (lines 259, 264, 271, 272; [RESET] is [POR]). *)
Definition locked (w : W) : W :=
  set_bits
    (set_bits
       (set_bits (set_bits (keyed w) SNVS_LPMKCR ZMK_VAL_MASK)
                 SNVS_LPMKCR ZMK_ECC_EN)
       SNVS_LPLR ZMK_RHL_MASK)
    SNVS_LPLR ZMK_WHL_MASK.

(** After B.9 and B.10 (lines 295, 299, 306). *)
Definition selected (w : W) : W :=
  set_bits
    (set_bits (set_bits (locked w) SNVS_LPMKCR MASTER_KEY_SEL_VALUE)
              SNVS_HPCOMR MKS_EN_MASK)
    SNVS_LPLR MKS_HL_MASK.

(** The run gets to B.3: the guards of lines 184, 186, 217, 235, 239 let
    it through. *)
Definition reaches_key_write (w : W) : bool :=
  ssm_functional w
  && (ZMK_HWP_state (conditioned w) =? 0x0)
  && soft_locks_clear (conditioned w)
  && hard_locks_clear (conditioned w).

(** The comparison of line 253. *)
Definition key_verified (w : W) : bool :=
  peek (keyed w) SNVS_LPZMKRn =? ZMK_VALUE.

End Points.

(** [runs m s Q]: statement [m], run in [s], leaves a result and a world
    that satisfy [Q]. *)
Definition runs {W A} (m : M W A) (s : world W)
    (Q : res A -> world W -> Prop) : Prop :=
  Q (fst (m s)) (snd (m s)).

(** ** Some plain-memory windows *)

(** Trusted mode, no latch set, key register zero. *)
Definition ram_trusted : ram := {[ SNVS_HPSR := 0xD00 ]}.

(** Trusted mode, no latch set, key register all ones. *)
Definition ram_key_dirty : ram := <[ SNVS_LPZMKRn := 0xFFFFFFFF ]> ram_trusted.

(** [SSM_ST] is 0xC. *)
Definition ram_ssm_c : ram := {[ SNVS_HPSR := 0xC00 ]}.

(** [SSM_ST] is 0x9. *)
Definition ram_ssm_9 : ram := {[ SNVS_HPSR := 0x900 ]}.

(** Trusted mode with [ZMK_HWP] set. *)
Definition ram_hwp : ram := <[ SNVS_LPMKCR := 0x4 ]> ram_trusted.

(** Trusted mode with the soft write lock [ZMK_WSL] set. *)
Definition ram_wsl : ram := <[ SNVS_HPLR := 0x1 ]> ram_trusted.

(** Trusted mode with the hard select lock [MKS_HL] set. *)
Definition ram_mks_hl : ram := <[ SNVS_LPLR := 0x200 ]> ram_trusted.


(** ** More readings of a run *)

(** The registers loaded from or stored to, in order. *)
Fixpoint accessed (t : list event) : list Z :=
  match t with
  | [] => []
  | ELoad off _ :: t' => off :: accessed t'
  | EStore off _ :: t' => off :: accessed t'
  | EPrint _ _ :: t' => accessed t'
  | ESpin _ :: t' => accessed t'
  end.

(** The arguments of the first print of line [l]. *)
Fixpoint args_of (l : line) (t : list event) : option (list Z) :=
  match t with
  | [] => None
  | EPrint l' args :: t' => if line_beq l l' then Some args else args_of l t'
  | _ :: t' => args_of l t'
  end.

(** The registers that [main] names in a load or a store. *)
Definition used_registers : list Z :=
  [ SNVS_HPVIDR1; SNVS_HPVIDR2; SNVS_LPZMKRn; SNVS_HPLR; SNVS_LPLR;
    SNVS_HPSR; SNVS_LPPGDR; SNVS_LPSR; SNVS_LPMKCR; SNVS_HPCOMR ].

(** The window after the given stores, done in order. *)
Definition replay {W : Type} `{RegisterWindow W}
    (l : list (Z * Z)) (w : W) : W :=
  fold_left (fun d p => store d (fst p) (snd p)) l w.

(** The lines that tell how a run ended: the five errors that return
    -1, the mismatch error, and the two results of the check of line
    286. *)
Definition verdict_lines : list line :=
  [ L336_error_ssm; L197_undefined_mode; L330_error_hwp;
    L324_error_soft_locks; L318_error_hard_locks;
    L314_error_key_mismatch; L287_passed_zeroized;
    L290_failed_not_zeroized ].

(** The bits that the stores of lines 204 and 210, of line 250, and of
    lines 259 to 306 OR into register [off]. *)
Definition glitch_bits (off : Z) : Z :=
  if off =? SNVS_LPPGDR then POWER_GLITCH_VALUE
  else if off =? SNVS_LPSR then PGD_MASK
  else 0.

Definition key_bits (off : Z) : Z :=
  if off =? SNVS_LPZMKRn then ZMK_VALUE else 0.

Definition select_bits (off : Z) : Z :=
  if off =? SNVS_LPMKCR then
    Z.lor (Z.lor ZMK_VAL_MASK ZMK_ECC_EN) MASTER_KEY_SEL_VALUE
  else if off =? SNVS_LPLR then
    Z.lor (Z.lor ZMK_RHL_MASK ZMK_WHL_MASK) MKS_HL_MASK
  else if off =? SNVS_HPCOMR then MKS_EN_MASK
  else 0.

(** The bits that a run ORs into register [off], by the path it takes. *)
Definition bits_written {W : Type} `{RegisterWindow W} (w : W) (off : Z) : Z :=
  if ssm_functional w then
    Z.lor (glitch_bits off)
          (if reaches_key_write w then
             Z.lor (key_bits off)
                   (if key_verified w then select_bits off else 0)
           else 0)
  else 0.

(** The window that statement [p] leaves when run in window [w]. *)
Definition window_after {W : Type} (p : M W unit) (w : W) : W :=
  dev (snd (p (World w []))).

(** ** A window that zeroizes the key *)

(** A device as the comment of line 280 expects it: once [ZMK_RHL] is
    set in the LP lock register, the key register reads zero; every
    other load yields the last word stored. *)
Record zeroizing : Type := Zeroizing { regs : gmap Z Z }.

#[global] Instance zeroizing_window : RegisterWindow zeroizing := {
  load d off :=
    if (off =? SNVS_LPZMKRn)
       && negb (Z.land (default 0 (regs d !! SNVS_LPLR)) ZMK_RHL_MASK =? 0)
    then 0
    else default 0 (regs d !! off);
  store d off v := Zeroizing (<[off := v]> (regs d))
}.

(** Trusted mode, no latch set, key register zero, on that device. *)
Definition zeroizing_trusted : zeroizing := Zeroizing ram_trusted.

(** Trusted mode with a soft lock and a hard lock both set. *)
Definition ram_both_locked : ram :=
  <[ SNVS_HPLR := 0x2 ]> (<[ SNVS_LPLR := 0x1 ]> ram_trusted).

(** Trusted mode, no latch set, on the zeroizing device, with the key
    register already holding 0x11223344. *)
Definition zeroizing_keyed : zeroizing :=
  Zeroizing (<[ SNVS_LPZMKRn := 0x11223344 ]> ram_trusted).

(** ** The wait of lines 282-283 *)

(** The counters of the passes through the loop, in order. *)
Fixpoint spins (t : list event) : list Z :=
  match t with
  | [] => []
  | ESpin i :: t' => i :: spins t'
  | _ :: t' => spins t'
  end.

(** [n] passes, the first with counter [i]. *)
Definition spin_from (i : Z) (n : nat) : list event :=
  map (fun k => ESpin (i + Z.of_nat k)) (seq 0 n).

(** 0x1000 passes, with the counter going from 0 to 0xFFF. *)
Definition spin_events : list event := spin_from 0 4096.

(** The numbers from 0 to 0xFFF. *)
Definition counters : list Z := map Z.of_nat (seq 0 4096).

(** [p] holds passes of the wait and nothing else. *)
Definition passes_only (p : list event) : Prop := map ESpin (spins p) = p.

(** The events before the first print of line [l]. *)
Fixpoint until_line (l : line) (t : list event) : list event :=
  match t with
  | [] => []
  | EPrint l' args :: t' =>
      if line_beq l l' then [] else EPrint l' args :: until_line l t'
  | e :: t' => e :: until_line l t'
  end.


Arguments peek : simpl never.
Arguments set_bits : simpl never.
Arguments or32 : simpl never.
Arguments i32 : simpl never.
Arguments u32 : simpl never.
Arguments u8 : simpl never.
Arguments spin_events : simpl never.
Arguments counters : simpl never.

(** ** Facts on the integer conversions *)

Section Conversions.

Lemma i32_range x : int_range (i32 x).
Proof.
  unfold int_range, i32. cbv zeta.
  change (2 ^ 32) with 4294967296. change (2 ^ 31) with 2147483648.
  pose proof (Z.mod_pos_bound x 4294967296 ltac:(lia)) as Hb.
  destruct (x mod 4294967296 <? 2147483648) eqn:E.
  - apply Z.ltb_lt in E. lia.
  - apply Z.ltb_ge in E. lia.
Qed.

Lemma i32_id x : int_range x -> i32 x = x.
Proof.
  unfold int_range, i32. cbv zeta.
  change (2 ^ 32) with 4294967296. change (2 ^ 31) with 2147483648.
  intros Hx. destruct (Z_lt_le_dec x 0) as [Hneg|Hpos].
  - assert (x mod 4294967296 = x + 4294967296) as ->.
    { symmetry. apply Z.mod_unique with (q := -1); lia. }
    destruct (x + 4294967296 <? 2147483648) eqn:E.
    + apply Z.ltb_lt in E. lia.
    + lia.
  - rewrite Z.mod_small by lia.
    destruct (x <? 2147483648) eqn:E.
    + reflexivity.
    + apply Z.ltb_ge in E. lia.
Qed.

(** [i32] keeps the low 31 bits and extends bit 31 upwards. *)
Lemma i32_testbit x n : 0 <= n -> Z.testbit (i32 x) n = Z.testbit x (Z.min n 31).
Proof.
  intros Hn. unfold i32. cbv zeta.
  pose proof (Z.mod_pos_bound x (2 ^ 32) ltac:(lia)) as Hb.
  assert (Hlow : forall k, k < 32 -> Z.testbit (x mod 2 ^ 32) k = Z.testbit x k)
    by (intros k Hk; now apply Z.mod_pow2_bits_low).
  destruct (x mod 2 ^ 32 <? 2 ^ 31) eqn:E.
  - apply Z.ltb_lt in E.
    destruct (Z_lt_le_dec n 32) as [Hs|Hl].
    + rewrite Hlow by lia.
      destruct (Z_lt_le_dec n 31); [now rewrite Z.min_l by lia|].
      now replace n with 31 by lia.
    + rewrite Z.mod_pow2_bits_high by lia. rewrite Z.min_r by lia.
      rewrite <- Hlow by lia. symmetry.
      apply Z.testbit_false; [lia|]. now rewrite Z.div_small by lia.
  - apply Z.ltb_ge in E.
    destruct (Z_lt_le_dec n 32) as [Hs|Hl].
    + rewrite <- (Z.mod_pow2_bits_low _ 32 n) by lia.
      replace ((x mod 2 ^ 32 - 2 ^ 32) mod 2 ^ 32) with (x mod 2 ^ 32).
      2:{ apply Z.mod_unique with (q := -1); lia. }
      rewrite Hlow by lia.
      destruct (Z_lt_le_dec n 31); [now rewrite Z.min_l by lia|].
      now replace n with 31 by lia.
    + rewrite Z.min_r by lia. rewrite <- (Hlow 31) by lia.
      transitivity true.
      * apply Z.bits_above_log2_neg; [lia|].
        set (y := Z.pred (- (x mod 2 ^ 32 - 2 ^ 32))).
        assert (0 <= y < 2 ^ 31) as Hy by (unfold y; lia).
        destruct (Z.eq_dec y 0) as [->|Hy0]; [simpl; lia|].
        assert (Z.log2 y < 31) by (apply Z.log2_lt_pow2; lia). lia.
      * symmetry. apply Z.testbit_true; [lia|].
        replace (x mod 2 ^ 32 / 2 ^ 31) with 1; [reflexivity|].
        apply Z.div_unique with (r := x mod 2 ^ 32 - 2 ^ 31); lia.
Qed.

(** The OR of line 150 is the bitwise OR of the two [int]s. *)
Lemma or32_lor a b : or32 a b = Z.lor (i32 a) (i32 b).
Proof.
  apply Z.bits_inj'. intros n Hn. unfold or32, u32.
  rewrite i32_testbit, !Z.lor_spec, !i32_testbit by lia.
  now rewrite !Z.mod_pow2_bits_low by lia.
Qed.

Lemma or32_range a b : int_range (or32 a b).
Proof. apply i32_range. Qed.

Lemma land_lor_absorb a b : Z.land a (Z.lor a b) = a.
Proof.
  apply Z.bits_inj'. intros n _. rewrite Z.land_spec, Z.lor_spec.
  now destruct (Z.testbit a n), (Z.testbit b n).
Qed.

Lemma lor_eq_iff_bits_le a b : Z.lor a b = b <-> bits_le a b.
Proof.
  unfold bits_le. split; intros Hab.
  - rewrite <- Hab. apply land_lor_absorb.
  - rewrite <- Hab. apply Z.bits_inj'. intros n _.
    rewrite Z.lor_spec, !Z.land_spec.
    now destruct (Z.testbit a n), (Z.testbit b n).
Qed.

Lemma bits_le_refl a : bits_le a a.
Proof. apply Z.land_diag. Qed.

Lemma bits_le_trans a b c : bits_le a b -> bits_le b c -> bits_le a c.
Proof.
  unfold bits_le. intros Hab Hbc.
  rewrite <- Hab. rewrite <- Z.land_assoc. now rewrite Hbc.
Qed.

Lemma bits_le_lor a b : bits_le a (Z.lor a b).
Proof. apply land_lor_absorb. Qed.

End Conversions.

(** ** Running [main] step by step *)

Lemma spin_events_passes : passes_only spin_events.
Proof. reflexivity. Qed.

Lemma spin_events_counters : spins spin_events = counters.
Proof. reflexivity. Qed.

Section Exec.
Context {W : Type} `{RegisterWindow W}.

Lemma runs_assoc {A B C} (m : M W A) (f : A -> M W B) (k : B -> M W C) s Q :
  runs (bind m (fun x => bind (f x) k)) s Q -> runs (bind (bind m f) k) s Q.
Proof. unfold runs, bind. destruct (m s) as [[a|c] s']; auto. Qed.

Lemma runs_Return {A} c (s : world W) (Q : res A -> world W -> Prop) :
  Q (Returned c) s -> runs (Return c) s Q.
Proof. exact (fun q => q). Qed.

Lemma runs_bind_Return {A B} c (k : A -> M W B) s Q :
  Q (Returned c) s -> runs (bind (Return c) k) s Q.
Proof. exact (fun q => q). Qed.

(** The events of a run are kept as [b ++ t]: [t] takes the events of
    the statements run one by one, [b] those before it, so that the
    events of the wait stay one block. *)
Lemma runs_printf {B} l args (k : unit -> M W B) d b t Q :
  runs (k tt) (World d (b ++ (t ++ [EPrint l args]))) Q ->
  runs (bind (printf l args) k) (World d (b ++ t)) Q.
Proof.
  unfold runs, bind, printf, emit. cbn [dev out]. now rewrite app_assoc.
Qed.

Lemma runs_get {B} off (k : Z -> M W B) d b t Q :
  runs (k (peek d off)) (World d (b ++ (t ++ [ELoad off (peek d off)]))) Q ->
  runs (bind (get_SNVS_reg off) k) (World d (b ++ t)) Q.
Proof.
  unfold runs, bind, get_SNVS_reg, peek. cbn [dev out]. now rewrite app_assoc.
Qed.

Lemma runs_field {B} off mask offset (k : Z -> M W B) d b t Q :
  runs (k (Z.shiftr (Z.land (peek d off) mask) offset))
       (World d (b ++ (t ++ [ELoad off (peek d off)]))) Q ->
  runs (bind (get_value_of_SNVS_reg_field off mask offset) k)
       (World d (b ++ t)) Q.
Proof.
  unfold runs, bind, get_value_of_SNVS_reg_field, get_SNVS_reg, ret, peek.
  cbn [dev out]. now rewrite app_assoc.
Qed.

Lemma runs_set {B} off value (k : unit -> M W B) d b t Q :
  runs (k tt)
       (World (set_bits d off value)
              (b ++ ((t ++ [ELoad off (peek d off)])
                       ++ [EStore off (or32 (peek d off) value)]))) Q ->
  runs (bind (set_value_of_SNVS_reg off value) k) (World d (b ++ t)) Q.
Proof.
  unfold runs, bind, set_value_of_SNVS_reg, get_SNVS_reg, put_SNVS_reg,
    set_bits, peek.
  cbn [dev out]. now rewrite !app_assoc.
Qed.

(** The loop from counter [i] on makes the passes that are left up to
    [TIMEOUT_MAX_VAL], one by one, and ends with the counter there; it
    leaves the window alone. *)
Lemma for_loop_runs n : forall i (d : W) t,
  i <= TIMEOUT_MAX_VAL ->
  (Z.to_nat (TIMEOUT_MAX_VAL - i) <= n)%nat ->
  for_loop n i (World d t)
  = (Next TIMEOUT_MAX_VAL,
     World d (t ++ spin_from i (Z.to_nat (TIMEOUT_MAX_VAL - i)))).
Proof.
  induction n as [|n IH]; intros i d t Hi Hn; cbn [for_loop].
  - assert (i = TIMEOUT_MAX_VAL) as -> by lia.
    rewrite Z.ltb_irrefl, Z.sub_diag. unfold ret, spin_from. cbn.
    now rewrite app_nil_r.
  - destruct (i <? TIMEOUT_MAX_VAL) eqn:E.
    + apply Z.ltb_lt in E.
      change (bind (emit (ESpin i)) (fun _ => for_loop n (i + 1)) (World d t))
        with (for_loop n (i + 1) (World d (t ++ [ESpin i]))).
      rewrite IH by lia. rewrite <- app_assoc. do 3 f_equal.
      replace (Z.to_nat (TIMEOUT_MAX_VAL - i))
        with (S (Z.to_nat (TIMEOUT_MAX_VAL - (i + 1)))) by lia.
      unfold spin_from. cbn [seq map app]. rewrite Z.add_0_r. f_equal.
      rewrite <- List.seq_shift, List.map_map.
      apply List.map_ext. intros k. f_equal. lia.
    + apply Z.ltb_ge in E. assert (i = TIMEOUT_MAX_VAL) as -> by lia.
      rewrite Z.sub_diag. unfold ret, spin_from. cbn.
      now rewrite app_nil_r.
Qed.

Lemma busy_wait_runs (d : W) t :
  busy_wait (World d t) = (Next TIMEOUT_MAX_VAL, World d (t ++ spin_events)).
Proof.
  unfold busy_wait. rewrite for_loop_runs; [reflexivity| |];
    unfold TIMEOUT_MAX_VAL; lia.
Qed.

(** The passes of the wait are kept as a block [p] of which the
    readings need no more than that it holds the passes in order. *)
Lemma runs_busy_wait {B} (k : Z -> M W B) d b t Q :
  (forall p, p = spin_events -> passes_only p -> spins p = counters ->
     runs (k TIMEOUT_MAX_VAL) (World d ((b ++ (t ++ p)) ++ [])) Q) ->
  runs (bind busy_wait k) (World d (b ++ t)) Q.
Proof.
  intros Hk.
  specialize (Hk spin_events eq_refl spin_events_passes spin_events_counters).
  unfold runs, bind in *. rewrite busy_wait_runs.
  now rewrite app_nil_r, app_assoc in Hk.
Qed.

(** What is observed of [main] is what its body leaves. *)
Lemma main_runs (P : Z -> W -> list event -> Prop) boot w :
  runs (bind (main_body boot) (fun _ => Return 0)) (World w ([] ++ []))
       (fun (r : res unit) s =>
          P (match r with Returned c => c | Next _ => 0 end) (dev s) (out s)) ->
  P (exit_status boot w) (final boot w) (events boot w).
Proof.
  unfold runs, exit_status, final, events, main.
  change (@nil event ++ []) with (@nil event).
  destruct (bind (main_body boot) (fun _ => Return 0) (World w []))
    as [[[]|c] s]; auto.
Qed.

Lemma peek_int_range (w : W) off : int_range (peek w off).
Proof. apply i32_range. Qed.

(** What line 150 stores, given what it loaded. *)
Lemma or32_peek (w : W) off value :
  or32 (peek w off) value = Z.lor (peek w off) (i32 value).
Proof. rewrite or32_lor. f_equal. apply i32_id, peek_int_range. Qed.

Lemma set_value_of_SNVS_reg_run (d : W) t off value :
  set_value_of_SNVS_reg off value (World d t)
  = (Next tt,
     World (set_bits d off value)
           (t ++ [ELoad off (peek d off);
                  EStore off (Z.lor (peek d off) (i32 value))])).
Proof.
  change (set_value_of_SNVS_reg off value (World d t))
    with (Next tt,
          World (set_bits d off value)
                ((t ++ [ELoad off (peek d off)])
                   ++ [EStore off (or32 (peek d off) value)])).
  now rewrite <- app_assoc, or32_peek.
Qed.

Lemma or32_peek_testbit (w : W) off value n :
  Z.testbit (i32 value) n = true ->
  Z.testbit (or32 (peek w off) value) n = true.
Proof. intros Hb. rewrite or32_peek, Z.lor_spec, Hb. apply orb_true_r. Qed.

End Exec.

(** ** Reading past the wait *)

Section Passes.
Variable p : list event.
Hypothesis Hp : passes_only p.

Lemma passes_only_eq : map ESpin (spins p) = p.
Proof. exact Hp. Qed.

Lemma skip_passes {A} (f : list event -> A) t :
  (forall i t', f (ESpin i :: t') = f t') -> f (p ++ t) = f t.
Proof.
  intros Hf. rewrite <- passes_only_eq.
  induction (spins p) as [|k ks IH]; [reflexivity|].
  cbn [map app]. now rewrite Hf.
Qed.

Lemma stores_passes t : stores (p ++ t) = stores t.
Proof. now apply (skip_passes stores). Qed.

Lemma printed_passes l t : printed l (p ++ t) = printed l t.
Proof. now apply (skip_passes (printed l)). Qed.

Lemma after_store_passes off t : after_store off (p ++ t) = after_store off t.
Proof. now apply (skip_passes (after_store off)). Qed.

Lemma after_line_passes l t : after_line l (p ++ t) = after_line l t.
Proof. now apply (skip_passes (after_line l)). Qed.

Lemma first_load_passes t : first_load (p ++ t) = first_load t.
Proof. now apply (skip_passes first_load). Qed.

Lemma args_of_passes l t : args_of l (p ++ t) = args_of l t.
Proof. now apply (skip_passes (args_of l)). Qed.

Lemma accessed_passes t : accessed (p ++ t) = accessed t.
Proof. now apply (skip_passes accessed). Qed.

Lemma rmw_only_passes t : rmw_only (p ++ t) = rmw_only t.
Proof. now apply (skip_passes rmw_only). Qed.

Lemma spins_passes t : spins (p ++ t) = spins p ++ spins t.
Proof.
  rewrite <- passes_only_eq at 1.
  induction (spins p) as [|k ks IH]; [reflexivity|].
  cbn [map app spins]. now rewrite IH.
Qed.

Lemma until_line_passes l t : until_line l (p ++ t) = p ++ until_line l t.
Proof.
  rewrite <- passes_only_eq.
  induction (spins p) as [|k ks IH]; [reflexivity|].
  cbn [map app until_line]. now rewrite IH.
Qed.

End Passes.


(** Runs the statement [main] is at. *)
Ltac run_stmt :=
  lazymatch goal with
  | |- runs (bind (bind _ _) _) _ _ => apply runs_assoc
  | |- runs (bind (printf _ _) _) _ _ => apply runs_printf
  | |- runs (bind (get_SNVS_reg _) _) _ _ => apply runs_get
  | |- runs (bind (get_value_of_SNVS_reg_field _ _ _) _) _ _ =>
      apply runs_field
  | |- runs (bind (set_value_of_SNVS_reg _ _) _) _ _ => apply runs_set
  | |- runs (bind busy_wait _) _ _ =>
      apply runs_busy_wait; intros passes Hwait Hpasses Hcounters
  | |- runs (bind (Return _) _) _ _ => apply runs_bind_Return
  | |- runs (Return _) _ _ => apply runs_Return
  end;
  cbv beta zeta.

(** Splits on the guard [main] is at. *)
Ltac run_guard :=
  lazymatch goal with
  | |- runs (bind (if ?g then _ else _) _) _ _ =>
      let G := fresh "G" in destruct g eqn:G
  end.

(** Turns the guards met on a path into arithmetic facts. *)
Ltac guards_to_prop :=
  repeat match goal with
         | H : (_ && _) = true |- _ => apply andb_true_iff in H; destruct H
         | H : (_ || _) = false |- _ => apply orb_false_iff in H; destruct H
         | H : (_ && _) = false |- _ => apply andb_false_iff in H
         | H : (_ || _) = true |- _ => apply orb_true_iff in H
         | H : (_ =? _) = true |- _ => apply Z.eqb_eq in H
         | H : (_ =? _) = false |- _ => apply Z.eqb_neq in H
         | H : (_ >=? _) = true |- _ =>
             rewrite Z.geb_leb in H; apply Z.leb_le in H
         | H : (_ >=? _) = false |- _ =>
             rewrite Z.geb_leb in H; apply Z.leb_gt in H
         end.

Ltac unfold_points :=
  unfold reaches_key_write, key_verified, ssm_functional, soft_locks_clear,
    hard_locks_clear, ZMK_HWP_state, SSM_state, selected, locked, keyed,
    conditioned, field in *.

(** Closes the paths that the hypotheses exclude. *)
Ltac off_path :=
  solve [exfalso; guards_to_prop; intuition (first [lia | congruence])].

(** Takes the readings of the goal past the passes of the wait. *)
Ltac past_wait :=
  try match goal with
      | Hp : passes_only ?p, Hc : spins ?p = counters |- _ =>
          rewrite ?(stores_passes p Hp), ?(printed_passes p Hp),
            ?(after_store_passes p Hp), ?(after_line_passes p Hp),
            ?(first_load_passes p Hp), ?(args_of_passes p Hp),
            ?(accessed_passes p Hp), ?(rmw_only_passes p Hp),
            ?(spins_passes p Hp), ?(until_line_passes p Hp), ?Hc
      end.

(** Case analysis on the paths of [main Mapped w]: in each case the exit
    status, the final window and the events are explicit, but for the
    passes of the wait, which stay the block [spin_events].  A path is
    dropped as soon as a guard contradicts the hypotheses. *)
Ltac main_paths w :=
  pattern (exit_status Mapped w), (final Mapped w), (events Mapped w);
  apply main_runs;
  unfold main_body;
  change (RESET =? POR) with true; cbv iota;
  repeat first [ run_stmt | run_guard; try off_path ];
  cbv beta iota; cbn [app dev out].

(** ** Facts on plain memory *)

Section Ram.
Implicit Type m : ram.

Lemma load_store m off v off' :
  load (store m off v) off' = if off' =? off then v else load m off'.
Proof.
  unfold load, store; simpl.
  destruct (off' =? off) eqn:E.
  - apply Z.eqb_eq in E. subst. now rewrite lookup_insert_eq.
  - apply Z.eqb_neq in E. now rewrite lookup_insert_ne by congruence.
Qed.

(** What a later load sees of line 150. *)
Lemma peek_set_bits m off value off' :
  peek (set_bits m off value) off'
  = if off' =? off then Z.lor (peek m off) (i32 value) else peek m off'.
Proof.
  unfold peek at 1. unfold set_bits. rewrite load_store.
  destruct (off' =? off); [|reflexivity].
  rewrite i32_id by apply or32_range. apply or32_peek.
Qed.

Lemma peek_set_bits_ne m off value off' :
  off' <> off -> peek (set_bits m off value) off' = peek m off'.
Proof.
  intros Hne. rewrite peek_set_bits.
  apply Z.eqb_neq in Hne. now rewrite Hne.
Qed.

Lemma peek_set_bits_eq m off value :
  peek (set_bits m off value) off = Z.lor (peek m off) (i32 value).
Proof. rewrite peek_set_bits. now rewrite Z.eqb_refl. Qed.

Lemma peek_set_bits_le m off value off' :
  bits_le (peek m off') (peek (set_bits m off value) off').
Proof.
  rewrite peek_set_bits. destruct (off' =? off) eqn:E.
  - apply Z.eqb_eq in E. subst. apply bits_le_lor.
  - apply bits_le_refl.
Qed.

End Ram.

(** ** The run of [main] on any register window *)

Section AnyWindow.
Context {W : Type} `{RegisterWindow W}.


(** C5: when the security-state field is below 0xB, [main] prints the
    error of line 336 and returns -1 without a single store; the window
    is the one it started with, so every register keeps its value. *)
Theorem below_threshold_fails_without_store (w : W) :
  SSM_state w < 0xB ->
  exit_status Mapped w = -1
  /\ printed L336_error_ssm (events Mapped w) = true
  /\ stores (events Mapped w) = []
  /\ final Mapped w = w.
Proof.
  intros Hs. unfold_points. main_paths w.
  cbn. auto.
Qed.

(** X1: [main] returns 0 exactly on the runs that get to the key write,
    whatever the comparison of line 253 then says, and -1 on all
    others. *)
Lemma exit_status_cases (w : W) :
  exit_status Mapped w = if reaches_key_write w then 0 else -1.
Proof.
  destruct (reaches_key_write w) eqn:Hr.
  all: unfold_points; main_paths w; reflexivity.
Qed.

(** On every window, a failed comparison at line 253 ends in the error
    of line 314 and the [return 0] of line 340. *)
Lemma main_mismatch (w : W) :
  reaches_key_write w = true ->
  key_verified w = false ->
  exit_status Mapped w = 0
  /\ printed L314_error_key_mismatch (events Mapped w) = true
  /\ final Mapped w = keyed w.
Proof.
  intros Hr Hv. unfold_points. main_paths w.
  all: cbn; past_wait; cbn; auto.
Qed.

(** C7: when the comparison of line 253 fails, the only stores of the
    whole run are the two of the glitch conditioning and the key write;
    nothing is stored after the key write, and the window [main] ends
    with is the window of the failed comparison.  The lock, command and
    master-key control registers are never stored to. *)
Theorem mismatch_stores_nothing_more (w : W) :
  reaches_key_write w = true ->
  key_verified w = false ->
  map fst (stores (events Mapped w)) = [SNVS_LPPGDR; SNVS_LPSR; SNVS_LPZMKRn]
  /\ option_map stores (after_store SNVS_LPZMKRn (events Mapped w)) = Some []
  /\ stored_to SNVS_HPLR (events Mapped w) = false
  /\ stored_to SNVS_LPLR (events Mapped w) = false
  /\ stored_to SNVS_HPCOMR (events Mapped w) = false
  /\ stored_to SNVS_LPMKCR (events Mapped w) = false
  /\ final Mapped w = keyed w.
Proof.
  intros Hr Hv. unfold_points. main_paths w.
  all: cbn; past_wait; cbn; repeat split; auto.
Qed.

(** C9: when the comparison of line 253 succeeds and the key register
    still reads non-zero at line 286, [main] prints the advisory of line
    290, then ORs the selection code into the master-key control
    register, the select-enable bit into the command register and the
    select lock into the LP lock register, and returns 0. *)
Theorem zeroize_advisory_keeps_success (w : W) :
  reaches_key_write w = true ->
  key_verified w = true ->
  peek (locked w) SNVS_LPZMKRn <> 0 ->
  printed L290_failed_not_zeroized (events Mapped w) = true
  /\ printed L287_passed_zeroized (events Mapped w) = false
  /\ option_map stores (after_line L290_failed_not_zeroized (events Mapped w))
     = Some [ (SNVS_LPMKCR,
               or32 (peek (locked w) SNVS_LPMKCR) MASTER_KEY_SEL_VALUE);
              (SNVS_HPCOMR,
               or32 (peek (set_bits (locked w) SNVS_LPMKCR MASTER_KEY_SEL_VALUE)
                          SNVS_HPCOMR) MKS_EN_MASK);
              (SNVS_LPLR,
               or32 (peek (set_bits
                             (set_bits (locked w) SNVS_LPMKCR MASTER_KEY_SEL_VALUE)
                             SNVS_HPCOMR MKS_EN_MASK)
                          SNVS_LPLR) MKS_HL_MASK) ]
  /\ final Mapped w = selected w
  /\ exit_status Mapped w = 0.
Proof.
  intros Hr Hv Hz. unfold_points. main_paths w.
  all: cbn; past_wait; cbn; repeat split; auto.
Qed.

(** C2, as the code has it: the run gets to the glitch conditioning
    (line 202) exactly when the security-state field is 0xB, 0xD or 0xF,
    which print the non-secure, trusted and secure lines; on every other
    value, 0xC and 0xE included, [main] returns -1 without a store, with
    the error of line 197 at or above 0xB and that of line 336 below. *)
Theorem ssm_state_classification (w : W) :
  printed L188_non_secure (events Mapped w) = (SSM_state w =? 0xb)
  /\ printed L191_trusted (events Mapped w) = (SSM_state w =? 0xd)
  /\ printed L194_secure (events Mapped w) = (SSM_state w =? 0xf)
  /\ printed L202_a2 (events Mapped w) = ssm_functional w
  /\ printed L197_undefined_mode (events Mapped w)
     = (SSM_state w >=? 0xB) && negb (ssm_functional w)
  /\ printed L336_error_ssm (events Mapped w) = negb (SSM_state w >=? 0xB)
  /\ (if ssm_functional w then True
      else exit_status Mapped w = -1
           /\ stores (events Mapped w) = []
           /\ final Mapped w = w).
Proof.
  unfold_points. main_paths w.
  all: guards_to_prop; cbn.
  all: repeat match goal with
              | |- context [?a =? ?b] => destruct (Z.eqb_spec a b)
              | |- context [?a >=? ?b] =>
                  rewrite (Z.geb_leb a b); destruct (Z.leb_spec b a)
              end.
  all: cbn; past_wait; cbn; repeat split; auto; lia.
Qed.

(** X13: [main] has no switch for line 264.  A word with the
    [ZMK_ECC_EN] bit set is stored into the master-key control register
    on exactly the runs that get to the key write and pass the
    comparison of line 253. *)
Theorem ecc_en_written_iff_key_verified (w : W) :
  writes_ecc_en (events Mapped w) = reaches_key_write w && key_verified w.
Proof.
  unfold reaches_key_write. destruct (ssm_functional w) eqn:Hf.
  all: unfold_points; main_paths w.
  all: repeat match goal with
              | G : (_ =? _) = _ |- _ => rewrite G
              | G : (_ && _) = _ |- _ => rewrite G
              end.
  all: cbn -[Z.testbit]; past_wait.
  all: rewrite ?(or32_peek_testbit _ _ ZMK_ECC_EN 4) by reflexivity.
  all: cbn -[Z.testbit]; rewrite ?orb_true_r; reflexivity.
Qed.

(** Every store of [main] is one of line 150. *)
Lemma main_rmw_only (w : W) : rmw_only (events Mapped w).
Proof.
  main_paths w.
  all: cbn; past_wait; cbn; repeat split; auto.
  all: eexists; apply or32_peek.
Qed.

End AnyWindow.

(** ** The run of [main] on plain memory *)

Section PlainMemory.
Implicit Type m : ram.

(** On plain memory the glitch conditioning leaves the registers that
    the guards read as they were. *)
Lemma reaches_key_write_ram m :
  reaches_key_write m
  = ssm_functional m && (ZMK_HWP_state m =? 0x0)
    && soft_locks_clear m && hard_locks_clear m.
Proof.
  unfold reaches_key_write, ZMK_HWP_state, soft_locks_clear, hard_locks_clear,
    conditioned, field.
  now rewrite !peek_set_bits_ne by (vm_compute; congruence).
Qed.

Lemma peek_keyed_key m :
  peek (keyed m) SNVS_LPZMKRn = Z.lor (peek m SNVS_LPZMKRn) ZMK_VALUE.
Proof.
  unfold keyed, conditioned. rewrite peek_set_bits_eq.
  now rewrite !peek_set_bits_ne by (vm_compute; congruence).
Qed.

(** C3, as the code has it: with a functional security state and the
    programming-mode bit and the six latches clear, the read of line 253
    yields the pre-run key word ORed with 0x11223344; that is 0x11223344
    exactly when the pre-run word has no bit outside 0x11223344. *)
Theorem key_read_back_is_or m :
  ssm_functional m = true ->
  ZMK_HWP_state m = 0 ->
  soft_locks_clear m = true ->
  hard_locks_clear m = true ->
  key_read_back (events Mapped m)
  = Some (Z.lor (peek m SNVS_LPZMKRn) ZMK_VALUE)
  /\ (Z.lor (peek m SNVS_LPZMKRn) ZMK_VALUE = ZMK_VALUE
      <-> bits_le (peek m SNVS_LPZMKRn) ZMK_VALUE).
Proof.
  intros Hs Hh Hsl Hhl. split; [|apply lor_eq_iff_bits_le].
  assert (Hr : reaches_key_write m = true).
  { rewrite reaches_key_write_ram, Hs, Hh, Hsl, Hhl. reflexivity. }
  rewrite <- peek_keyed_key. clear Hs Hh Hsl Hhl.
  unfold_points. main_paths m.
  all: reflexivity.
Qed.

(** C6: on a functional security state, when the programming-mode bit
    or one of the six latches is set, [main] prints the error of line
    330, 324 or 318 and returns -1 before B.3; no store goes to the key
    register, which reads after the run what it read before. *)
Theorem locked_out_keeps_key m :
  ssm_functional m = true ->
  ZMK_HWP_state m <> 0
  \/ soft_locks_clear m = false \/ hard_locks_clear m = false ->
  exit_status Mapped m = -1
  /\ (printed L330_error_hwp (events Mapped m)
      || printed L324_error_soft_locks (events Mapped m)
      || printed L318_error_hard_locks (events Mapped m)) = true
  /\ printed L246_b3 (events Mapped m) = false
  /\ stored_to SNVS_LPZMKRn (events Mapped m) = false
  /\ peek (final Mapped m) SNVS_LPZMKRn = peek m SNVS_LPZMKRn.
Proof.
  intros Hs Hl.
  assert (Hr : reaches_key_write m = false).
  { rewrite reaches_key_write_ram, Hs. cbn.
    destruct Hl as [Hh|[Hl|Hl]].
    - apply Z.eqb_neq in Hh. now rewrite Hh.
    - rewrite Hl. apply andb_false_iff. left. apply andb_false_r.
    - rewrite Hl. apply andb_false_r. }
  clear Hl. unfold_points. main_paths m.
  all: cbn; past_wait; cbn; repeat split; auto.
  all: now rewrite !peek_set_bits_ne by (vm_compute; congruence).
Qed.

(** The window of every path of [main] has, register by register, all
    the bits the run started with. *)
Ltac bits_kept :=
  repeat (eapply bits_le_trans; [|apply peek_set_bits_le]);
  apply bits_le_refl.

(** C8, as the code has it.  On every register window, line 150 loads
    the register and stores the loaded word ORed with the bits, and
    every store of [main] is such a store, right after the load of the
    same register: no store clears a bit of the word it loaded.  What
    the register reads afterwards is up to the device.  On plain
    memory, where a load yields the last word stored, the register then
    reads its former word ORed with the bits, and after the run every
    register has all the bits it had before. *)
Theorem every_store_ors_bits_in :
  (forall (W : Type) (HW : RegisterWindow W) (w : W),
      (forall off value t,
          set_value_of_SNVS_reg off value (World w t)
          = (Next tt,
             World (store w off (Z.lor (peek w off) (i32 value)))
                   (t ++ [ELoad off (peek w off);
                          EStore off (Z.lor (peek w off) (i32 value))])))
      /\ rmw_only (events Mapped w))
  /\ (forall m off value,
        peek (window_after (set_value_of_SNVS_reg off value) m) off
        = Z.lor (peek m off) (i32 value))
  /\ (forall m off, bits_le (peek m off) (peek (final Mapped m) off)).
Proof.
  split; [|split].
  - intros W HW w. split; [|apply main_rmw_only].
    intros off value t. rewrite set_value_of_SNVS_reg_run.
    unfold set_bits. now rewrite or32_peek.
  - intros m off value. unfold window_after.
    rewrite set_value_of_SNVS_reg_run. apply peek_set_bits_eq.
  - intros m off. main_paths m.
    all: bits_kept.
Qed.

End PlainMemory.

(** ** The claims on concrete windows *)

(** C1, where the code departs from it: on a window in trusted mode with
    no latch set and a key register of all ones, the read of line 253
    yields -1, not 0x11223344; [main] prints the error of line 314 and
    then returns 0 through line 340. *)
Theorem verify_mismatch_returns_zero :
  reaches_key_write ram_key_dirty = true
  /\ key_verified ram_key_dirty = false
  /\ key_read_back (events Mapped ram_key_dirty) = Some (-1)
  /\ printed L314_error_key_mismatch (events Mapped ram_key_dirty) = true
  /\ exit_status Mapped ram_key_dirty = 0.
Proof. vm_compute. repeat split. Qed.

(** C2 fails at [SSM_ST = 0xC]: the value is at the threshold or above,
    yet [main] prints the error of line 197 and returns -1 without
    getting to the glitch conditioning. *)
Lemma ssm_0xC_is_rejected :
  SSM_state ram_ssm_c = 0xC
  /\ (SSM_state ram_ssm_c >=? 0xB) = true
  /\ printed L197_undefined_mode (events Mapped ram_ssm_c) = true
  /\ printed L202_a2 (events Mapped ram_ssm_c) = false
  /\ exit_status Mapped ram_ssm_c = -1.
Proof. vm_compute. repeat split. Qed.

(** C3 fails on a key register of all ones: the security state is
    functional and nothing is locked, yet the read that follows the key
    write yields -1 (0xFFFFFFFF), not 0x11223344. *)
Lemma dirty_key_reads_back_differently :
  ssm_functional ram_key_dirty = true
  /\ ZMK_HWP_state ram_key_dirty = 0
  /\ soft_locks_clear ram_key_dirty = true
  /\ hard_locks_clear ram_key_dirty = true
  /\ key_read_back (events Mapped ram_key_dirty) = Some (-1)
  /\ Some (-1) <> Some ZMK_VALUE.
Proof. vm_compute. repeat split. discriminate. Qed.

(** C8 fails on a device that zeroizes the key: on a trusted window with
    nothing locked whose key register holds 0x11223344, the run verifies
    the key, sets the read lock and returns 0, and the key register,
    which read 0x11223344 before the run, reads 0 after it. *)
Lemma zeroized_key_loses_bits :
  peek zeroizing_keyed SNVS_LPZMKRn = 0x11223344
  /\ key_read_back (events Mapped zeroizing_keyed) = Some 0x11223344
  /\ exit_status Mapped zeroizing_keyed = 0
  /\ peek (final Mapped zeroizing_keyed) SNVS_LPZMKRn = 0
  /\ ~ bits_le (peek zeroizing_keyed SNVS_LPZMKRn)
               (peek (final Mapped zeroizing_keyed) SNVS_LPZMKRn).
Proof. vm_compute. repeat split. discriminate. Qed.

(** [key_read_back_is_or] on the trusted window with a zero key. *)
Lemma key_read_back_is_or_witness :
  (ssm_functional ram_trusted = true
   /\ ZMK_HWP_state ram_trusted = 0
   /\ soft_locks_clear ram_trusted = true
   /\ hard_locks_clear ram_trusted = true)
  /\ key_read_back (events Mapped ram_trusted)
     = Some (Z.lor (peek ram_trusted SNVS_LPZMKRn) ZMK_VALUE)
  /\ (Z.lor (peek ram_trusted SNVS_LPZMKRn) ZMK_VALUE = ZMK_VALUE
      <-> bits_le (peek ram_trusted SNVS_LPZMKRn) ZMK_VALUE).
Proof.
  split.
  - vm_compute. repeat split.
  - apply (key_read_back_is_or ram_trusted); vm_compute; reflexivity.
Defined.

(** [below_threshold_fails_without_store] at [SSM_ST = 0x9]. *)
Lemma below_threshold_fails_without_store_witness :
  SSM_state ram_ssm_9 < 0xB
  /\ exit_status Mapped ram_ssm_9 = -1
  /\ printed L336_error_ssm (events Mapped ram_ssm_9) = true
  /\ stores (events Mapped ram_ssm_9) = []
  /\ final Mapped ram_ssm_9 = ram_ssm_9.
Proof.
  assert (Hs : SSM_state ram_ssm_9 < 0xB) by (vm_compute; reflexivity).
  split; [exact Hs|].
  exact (below_threshold_fails_without_store ram_ssm_9 Hs).
Defined.

(** [locked_out_keeps_key] with [ZMK_HWP] set. *)
Lemma locked_out_keeps_key_witness :
  (ssm_functional ram_hwp = true /\ ZMK_HWP_state ram_hwp <> 0)
  /\ exit_status Mapped ram_hwp = -1
  /\ (printed L330_error_hwp (events Mapped ram_hwp)
      || printed L324_error_soft_locks (events Mapped ram_hwp)
      || printed L318_error_hard_locks (events Mapped ram_hwp)) = true
  /\ printed L246_b3 (events Mapped ram_hwp) = false
  /\ stored_to SNVS_LPZMKRn (events Mapped ram_hwp) = false
  /\ peek (final Mapped ram_hwp) SNVS_LPZMKRn = peek ram_hwp SNVS_LPZMKRn.
Proof.
  assert (Hs : ssm_functional ram_hwp = true) by (vm_compute; reflexivity).
  assert (Hh : ZMK_HWP_state ram_hwp <> 0) by (vm_compute; discriminate).
  split; [exact (conj Hs Hh)|].
  exact (locked_out_keeps_key ram_hwp Hs (or_introl Hh)).
Defined.

(** [mismatch_stores_nothing_more] on a key register of all ones. *)
Lemma mismatch_stores_nothing_more_witness :
  (reaches_key_write ram_key_dirty = true
   /\ key_verified ram_key_dirty = false)
  /\ map fst (stores (events Mapped ram_key_dirty))
     = [SNVS_LPPGDR; SNVS_LPSR; SNVS_LPZMKRn]
  /\ option_map stores (after_store SNVS_LPZMKRn (events Mapped ram_key_dirty))
     = Some []
  /\ stored_to SNVS_HPLR (events Mapped ram_key_dirty) = false
  /\ stored_to SNVS_LPLR (events Mapped ram_key_dirty) = false
  /\ stored_to SNVS_HPCOMR (events Mapped ram_key_dirty) = false
  /\ stored_to SNVS_LPMKCR (events Mapped ram_key_dirty) = false
  /\ final Mapped ram_key_dirty = keyed ram_key_dirty.
Proof.
  assert (Hr : reaches_key_write ram_key_dirty = true)
    by (vm_compute; reflexivity).
  assert (Hv : key_verified ram_key_dirty = false)
    by (vm_compute; reflexivity).
  split; [exact (conj Hr Hv)|].
  exact (mismatch_stores_nothing_more ram_key_dirty Hr Hv).
Defined.

(** [zeroize_advisory_keeps_success] on the trusted window: plain
    memory never zeroizes the key. *)
Lemma zeroize_advisory_keeps_success_witness :
  peek (locked ram_trusted) SNVS_LPZMKRn <> 0
  /\ printed L290_failed_not_zeroized (events Mapped ram_trusted) = true
  /\ exit_status Mapped ram_trusted = 0.
Proof.
  assert (Hr : reaches_key_write ram_trusted = true)
    by (vm_compute; reflexivity).
  assert (Hv : key_verified ram_trusted = true)
    by (vm_compute; reflexivity).
  assert (Hz : peek (locked ram_trusted) SNVS_LPZMKRn <> 0)
    by (vm_compute; discriminate).
  pose proof (zeroize_advisory_keeps_success ram_trusted Hr Hv Hz) as Hw.
  exact (conj Hz (conj (proj1 Hw) (proj2 (proj2 (proj2 (proj2 Hw)))))).
Defined.

(** ** Some runs *)

(** Lines 156-166: without a window [main] returns -1 at once. *)
Example main_open_failed :
  main OpenFailed ram_trusted
  = (-1, World ram_trusted [EPrint L154_banner []; EPrint L158_cannot_open []]).
Proof. reflexivity. Qed.

Example main_map_failed :
  main MapFailed ram_trusted
  = (-1, World ram_trusted [EPrint L154_banner []; EPrint L164_cannot_map []]).
Proof. reflexivity. Qed.

(** The stores of the run on the trusted window, in order. *)
Example trusted_run_stores :
  stores (events Mapped ram_trusted)
  = [ (SNVS_LPPGDR, 0x41736166); (SNVS_LPSR, 0x8);
      (SNVS_LPZMKRn, 0x11223344);
      (SNVS_LPMKCR, 0x8); (SNVS_LPMKCR, 0x18);
      (SNVS_LPLR, 0x2); (SNVS_LPLR, 0x3);
      (SNVS_LPMKCR, 0x1A); (SNVS_HPCOMR, 0x2000); (SNVS_LPLR, 0x203) ]
  /\ exit_status Mapped ram_trusted = 0.
Proof. vm_compute. split; reflexivity. Qed.

(** The run on the trusted window stores 0x18 into the master-key
    control register, which sets the [ZMK_ECC_EN] bit that was clear. *)
Example ecc_en_is_written :
  writes_ecc_en (events Mapped ram_trusted) = true
  /\ In (SNVS_LPMKCR, 0x18) (stores (events Mapped ram_trusted))
  /\ Z.testbit (peek ram_trusted SNVS_LPMKCR) 4 = false
  /\ Z.testbit (peek (final Mapped ram_trusted) SNVS_LPMKCR) 4 = true.
Proof. vm_compute. intuition. Qed.

(** A soft lock and a hard lock each stop the run after the glitch
    conditioning. *)
Example soft_locked_run :
  exit_status Mapped ram_wsl = -1
  /\ printed L324_error_soft_locks (events Mapped ram_wsl) = true
  /\ map fst (stores (events Mapped ram_wsl)) = [SNVS_LPPGDR; SNVS_LPSR].
Proof. vm_compute. repeat split. Qed.

Example hard_locked_run :
  exit_status Mapped ram_mks_hl = -1
  /\ printed L318_error_hard_locks (events Mapped ram_mks_hl) = true
  /\ map fst (stores (events Mapped ram_mks_hl)) = [SNVS_LPPGDR; SNVS_LPSR].
Proof. vm_compute. repeat split. Qed.

(** ** More on the run of [main] on any register window *)

Section AnyWindowMore.
Context {W : Type} `{RegisterWindow W}.

(** When [open] or [mmap] fails, [main] prints the banner and the
    [perror] line and returns -1; it loads and stores no register. *)
Lemma startup_failure_touches_nothing (w : W) :
  main OpenFailed w
  = (-1, World w [EPrint L154_banner []; EPrint L158_cannot_open []])
  /\ main MapFailed w
     = (-1, World w [EPrint L154_banner []; EPrint L164_cannot_map []])
  /\ accessed (events OpenFailed w) = []
  /\ accessed (events MapFailed w) = [].
Proof. repeat split. Qed.

(** The window a run ends with, path by path. *)
Lemma final_cases (w : W) :
  final Mapped w
  = if ssm_functional w then
      if reaches_key_write w then
        if key_verified w then selected w else keyed w
      else conditioned w
    else w.
Proof.
  unfold reaches_key_write.
  destruct (ssm_functional w) eqn:Hf; cbn [andb].
  - destruct (ZMK_HWP_state (conditioned w) =? 0) eqn:Hh; cbn [andb];
      [destruct (soft_locks_clear (conditioned w)) eqn:Hsl; cbn [andb];
       [destruct (hard_locks_clear (conditioned w)) eqn:Hhl;
        [destruct (key_verified w) eqn:Hv|]|]|].
    all: unfold_points; main_paths w; reflexivity.
  - unfold_points; main_paths w; reflexivity.
Qed.

Lemma filter_bool_ext {A} (f g : A -> bool) (l : list A) :
  (forall a, f a = g a) ->
  filter (fun a => f a) l = filter (fun a => g a) l.
Proof.
  intros E. induction l as [|a l IH]; [reflexivity|].
  rewrite !filter_cons, IH, E. reflexivity.
Qed.

(** X2: the registers stored to, in the order of the stores: the two of
    the glitch conditioning once the security state is functional, then
    the key register once the lock checks pass, then, once the key is
    verified, the control register twice, the LP lock register twice,
    the control register, the command register and the LP lock
    register.  No run stores to anything else, and none to the HP lock
    register. *)
Theorem stores_in_order (w : W) :
  map fst (stores (events Mapped w))
  = if ssm_functional w then
      [SNVS_LPPGDR; SNVS_LPSR]
      ++ (if reaches_key_write w then
            SNVS_LPZMKRn
            :: (if key_verified w then
                  [SNVS_LPMKCR; SNVS_LPMKCR; SNVS_LPLR; SNVS_LPLR;
                   SNVS_LPMKCR; SNVS_HPCOMR; SNVS_LPLR]
                else [])
          else [])
    else [].
Proof.
  unfold reaches_key_write.
  destruct (ssm_functional w) eqn:Hf; cbn [andb].
  - destruct (ZMK_HWP_state (conditioned w) =? 0) eqn:Hh; cbn [andb];
      [destruct (soft_locks_clear (conditioned w)) eqn:Hsl; cbn [andb];
       [destruct (hard_locks_clear (conditioned w)) eqn:Hhl;
        [destruct (key_verified w) eqn:Hv|]|]|].
    all: unfold_points; main_paths w; cbn; past_wait; reflexivity.
  - unfold_points; main_paths w; cbn; past_wait; reflexivity.
Qed.

(** X3: every run on a mapped window prints exactly one of the eight
    lines that tell how it ended. *)
Theorem exactly_one_verdict (w : W) :
  length (filter (fun l => printed l (events Mapped w)) verdict_lines)
  = 1%nat.
Proof.
  main_paths w.
  all: match goal with
       | |- context [printed _ ?t] =>
           let g := fresh "g" in
           let E := fresh "E" in
           evar (g : line -> bool);
           assert (E : forall l, printed l t = g l)
             by (intros l; cbn [printed]; past_wait; unfold g; reflexivity);
           rewrite (filter_bool_ext (fun l => printed l t) g _ E); clear E;
           unfold g; clear g
       end.
  all: reflexivity.
Qed.

(** X4: the lock checks fail in the order of the source: the
    programming-mode error when [ZMK_HWP] is set, whatever the latches;
    the soft-lock error when it is clear and a soft latch is set,
    whatever the hard latches; the hard-lock error only when the soft
    latches are clear too.  The fields are those read after the glitch
    conditioning. *)
Theorem lock_errors_in_source_order (w : W) :
  ssm_functional w = true ->
  printed L330_error_hwp (events Mapped w)
  = negb (ZMK_HWP_state (conditioned w) =? 0)
  /\ printed L324_error_soft_locks (events Mapped w)
     = (ZMK_HWP_state (conditioned w) =? 0)
       && negb (soft_locks_clear (conditioned w))
  /\ printed L318_error_hard_locks (events Mapped w)
     = (ZMK_HWP_state (conditioned w) =? 0)
       && soft_locks_clear (conditioned w)
       && negb (hard_locks_clear (conditioned w)).
Proof.
  intros Hf.
  destruct (ZMK_HWP_state (conditioned w) =? 0) eqn:Hh;
    [destruct (soft_locks_clear (conditioned w)) eqn:Hsl;
     [destruct (hard_locks_clear (conditioned w)) eqn:Hhl|]|].
  all: unfold_points; main_paths w; cbn; past_wait; repeat split; reflexivity.
Qed.

(** X5: when the key register reads zero at line 286, [main] prints the
    line 287 and not the advisory, loads the key register no more, and
    goes on with the same three selection stores to return 0. *)
Theorem zeroized_key_passes_check (w : W) :
  reaches_key_write w = true ->
  key_verified w = true ->
  peek (locked w) SNVS_LPZMKRn = 0 ->
  printed L287_passed_zeroized (events Mapped w) = true
  /\ printed L290_failed_not_zeroized (events Mapped w) = false
  /\ option_map accessed (after_line L287_passed_zeroized (events Mapped w))
     = Some [SNVS_LPMKCR; SNVS_LPMKCR; SNVS_LPMKCR; SNVS_HPCOMR;
             SNVS_HPCOMR; SNVS_HPCOMR; SNVS_HPCOMR; SNVS_LPLR; SNVS_LPLR]
  /\ final Mapped w = selected w
  /\ exit_status Mapped w = 0.
Proof.
  intros Hr Hv Hz. unfold_points. main_paths w.
  all: cbn; past_wait; cbn; repeat split; auto.
Qed.

(** The window a run ends with is the one it started with, after the
    recorded stores done in order. *)
Lemma final_is_replayed_stores (boot : startup) (w : W) :
  final boot w = replay (stores (events boot w)) w.
Proof.
  destruct boot; [reflexivity|reflexivity|].
  main_paths w; cbn [stores]; past_wait; reflexivity.
Qed.

(** X6: every load and every store is at one of the ten registers
    that [main] names; the HP control register [SNVS_HPCR] is never
    accessed, and every offset is a multiple of 4 up to 0xBFC. *)
Theorem accesses_within_named_registers (boot : startup) (w : W) :
  Forall (fun off => In off used_registers) (accessed (events boot w))
  /\ ~ In SNVS_HPCR (accessed (events boot w))
  /\ Forall (fun off => 0 <= off <= 0xBFC /\ off mod 4 = 0)
            (accessed (events boot w)).
Proof.
  assert (Hu : Forall (fun off => 0 <= off <= 0xBFC /\ off mod 4 = 0)
                      used_registers).
  { unfold used_registers.
    repeat (apply List.Forall_cons; [vm_compute; intuition congruence|]).
    apply List.Forall_nil. }
  assert (Hn : ~ In SNVS_HPCR used_registers).
  { vm_compute. intuition discriminate. }
  assert (Ha : Forall (fun off => In off used_registers)
                      (accessed (events boot w))).
  { destruct boot; [constructor|constructor|].
    main_paths w.
    all: cbn [accessed]; past_wait; cbn [accessed].
    all: repeat (apply List.Forall_cons;
                 [vm_compute; repeat (first [left; reflexivity | right])|]).
    all: apply List.Forall_nil. }
  split; [exact Ha|split].
  - intros Hin. apply Hn.
    rewrite List.Forall_forall in Ha. now apply Ha.
  - rewrite List.Forall_forall in *. intros off Hin. apply Hu, Ha, Hin.
Qed.

End AnyWindowMore.

(** ** More on the run of [main] on plain memory *)

Section AnyWindowFields.
Context {W : Type} `{RegisterWindow W}.

Lemma land_within_mask a mask : 0 <= mask -> 0 <= Z.land a mask <= mask.
Proof.
  intros Hm. split; [apply Z.land_nonneg; now right|].
  assert (Hd : Z.ldiff (Z.land a mask) mask = 0).
  { apply Z.bits_inj'. intros n _.
    rewrite Z.ldiff_spec, Z.land_spec, Z.bits_0.
    now destruct (Z.testbit a n), (Z.testbit mask n). }
  pose proof (Z.sub_nocarry_ldiff mask (Z.land a mask) Hd) as Hs.
  assert (0 <= Z.ldiff mask (Z.land a mask))
    by (apply Z.ldiff_nonneg; now left).
  lia.
Qed.

Lemma field_within_mask (w : W) off mask offset :
  0 <= mask -> 0 <= offset -> Z.shiftr mask offset < 256 ->
  field w off mask offset = Z.shiftr (Z.land (peek w off) mask) offset
  /\ 0 <= field w off mask offset <= Z.shiftr mask offset.
Proof.
  intros Hm Ho Hs. unfold field.
  pose proof (land_within_mask (peek w off) mask Hm) as [Hl Hu].
  assert (Hb : 0 <= Z.shiftr (Z.land (peek w off) mask) offset
               <= Z.shiftr mask offset).
  { split; [now apply Z.shiftr_nonneg|].
    rewrite !Z.shiftr_div_pow2 by lia.
    apply Z.div_le_mono; [apply Z.pow_pos_nonneg; lia|lia]. }
  assert (He : u8 (Z.shiftr (Z.land (peek w off) mask) offset)
               = Z.shiftr (Z.land (peek w off) mask) offset).
  { unfold u8. apply Z.mod_small. change (2 ^ 8) with 256. lia. }
  rewrite He. auto.
Qed.

(** X7: the fields that [main] keeps in an [unsigned char] fit: the
    security state is within 0..15, the programming-mode bit and the
    six latches within 0..1, and the conversion changes none of them. *)
Theorem fields_fit_unsigned_char (w : W) :
  (0 <= SSM_state w <= 15
   /\ SSM_state w
      = Z.shiftr (Z.land (peek w SNVS_HPSR) SSM_ST_MASK) SSM_ST_OFFSET)
  /\ 0 <= ZMK_HWP_state w <= 1
  /\ 0 <= field w SNVS_HPLR ZMK_WSL_MASK ZMK_WSL_OFFSET <= 1
  /\ 0 <= field w SNVS_HPLR ZMK_RSL_MASK ZMK_RSL_OFFSET <= 1
  /\ 0 <= field w SNVS_HPLR MKS_SL_MASK MKS_SL_OFFSET <= 1
  /\ 0 <= field w SNVS_LPLR ZMK_WHL_MASK ZMK_WHL_OFFSET <= 1
  /\ 0 <= field w SNVS_LPLR ZMK_RHL_MASK ZMK_RHL_OFFSET <= 1
  /\ 0 <= field w SNVS_LPLR MKS_HL_MASK MKS_HL_OFFSET <= 1.
Proof.
  unfold SSM_state, ZMK_HWP_state.
  repeat split.
  all: try (symmetry; apply field_within_mask; vm_compute; congruence).
  all: try (apply field_within_mask; vm_compute; congruence).
  all: match goal with
       | |- field ?w ?o ?m ?s <= ?b =>
           change b with (Z.shiftr m s);
           apply field_within_mask; vm_compute; congruence
       end.
Qed.

(** The path of the hard-lock error, on any window. *)
Lemma hard_lock_path (w : W) :
  ssm_functional w = true ->
  ZMK_HWP_state (conditioned w) = 0 ->
  soft_locks_clear (conditioned w) = true ->
  hard_locks_clear (conditioned w) = false ->
  exit_status Mapped w = -1
  /\ printed L318_error_hard_locks (events Mapped w) = true
  /\ stored_to SNVS_LPZMKRn (events Mapped w) = false.
Proof.
  intros Hf Hh Hsl Hhl. unfold_points. main_paths w.
  all: cbn; past_wait; cbn; auto.
Qed.

End AnyWindowFields.

Section PlainMemoryMore.
Implicit Type m : ram.

Lemma lookup_set_bits m off value k :
  set_bits m off value !! k
  = if k =? off then Some (Z.lor (peek m off) (i32 value)) else m !! k.
Proof.
  unfold set_bits. cbn [store ram_window].
  destruct (k =? off) eqn:E.
  - apply Z.eqb_eq in E. subst. rewrite lookup_insert_eq. f_equal.
    apply or32_peek.
  - apply Z.eqb_neq in E. now rewrite lookup_insert_ne by congruence.
Qed.

Lemma lookup_set_bits_eq m off value :
  set_bits m off value !! off = Some (Z.lor (peek m off) (i32 value)).
Proof. rewrite lookup_set_bits. now rewrite Z.eqb_refl. Qed.

Lemma lookup_set_bits_ne m off value k :
  k <> off -> set_bits m off value !! k = m !! k.
Proof.
  intros Hne. rewrite lookup_set_bits.
  apply Z.eqb_neq in Hne. now rewrite Hne.
Qed.

End PlainMemoryMore.

(** Decides the comparisons between register offsets. *)
Ltac decide_offsets :=
  repeat match goal with
         | |- context [?a =? ?b] =>
             let r := eval vm_compute in (a =? b) in
             lazymatch r with
             | true => change (a =? b) with true
             | false => change (a =? b) with false
             end
         end;
  cbv iota.

(** Splits on which register [k] is. *)
Ltac split_offset k :=
  repeat (decide_offsets;
          match goal with
          | |- context [k =? ?c] =>
              destruct (Z.eqb_spec k c); [subst k|]
          end);
  decide_offsets.

(** The program's constants are [int]s. *)
Ltac int_constants :=
  change (i32 POWER_GLITCH_VALUE) with POWER_GLITCH_VALUE;
  change (i32 PGD_MASK) with PGD_MASK;
  change (i32 ZMK_VALUE) with ZMK_VALUE;
  change (i32 ZMK_VAL_MASK) with ZMK_VAL_MASK;
  change (i32 ZMK_ECC_EN) with ZMK_ECC_EN;
  change (i32 ZMK_RHL_MASK) with ZMK_RHL_MASK;
  change (i32 ZMK_WHL_MASK) with ZMK_WHL_MASK;
  change (i32 MASTER_KEY_SEL_VALUE) with MASTER_KEY_SEL_VALUE;
  change (i32 MKS_EN_MASK) with MKS_EN_MASK;
  change (i32 MKS_HL_MASK) with MKS_HL_MASK.

(** Equations between ORs, bit by bit. *)
Ltac lor_solve :=
  rewrite ?Z.lor_0_l, ?Z.lor_0_r;
  first
    [ reflexivity
    | apply Z.bits_inj'; let n := fresh "n" in
      intros n _; rewrite ?Z.lor_spec;
      repeat match goal with
             | |- context [Z.testbit ?a n] => destruct (Z.testbit a n)
             end;
      reflexivity ].

(** Two register offsets differ. *)
Ltac offsets_differ := first [assumption | vm_compute; congruence].

(** Looks through one [set_bits], for a load or a lookup at an offset
    that is a register or is known to differ from it. *)
Ltac through_set_bits :=
  match goal with
  | |- context [peek (set_bits ?m ?o ?v) ?o'] =>
      first [ rewrite (peek_set_bits_eq m o v)
            | rewrite (peek_set_bits_ne m o v o') by offsets_differ ]
  | |- context [set_bits ?m ?o ?v !! ?k] =>
      first [ rewrite (lookup_set_bits_eq m o v)
            | rewrite (lookup_set_bits_ne m o v k) by offsets_differ ]
  end.

(** Splits on whether [k] is one of the six registers stored to. *)
Ltac split_stored_register k :=
  destruct (Z.eq_dec k SNVS_LPPGDR) as [->|?];
  [|destruct (Z.eq_dec k SNVS_LPSR) as [->|?];
    [|destruct (Z.eq_dec k SNVS_LPZMKRn) as [->|?];
      [|destruct (Z.eq_dec k SNVS_LPMKCR) as [->|?];
        [|destruct (Z.eq_dec k SNVS_LPLR) as [->|?];
          [|destruct (Z.eq_dec k SNVS_HPCOMR) as [->|?]]]]]].

(** Equality of two plain-memory windows built by [set_bits]. *)
Ltac ram_eq :=
  let k := fresh "k" in
  apply map_eq; intros k;
  unfold selected, locked, keyed, conditioned;
  split_stored_register k;
  repeat through_set_bits;
  first [reflexivity | f_equal; lor_solve].

Section PlainMemoryRuns.
Implicit Type m : ram.

(** X8: on plain memory a run ORs into each register the bits of the
    path it takes and does nothing else: glitch value and status bit
    once the security state is functional, the key once the lock checks
    pass, and the flag, lock and selection bits once the key is
    verified.  Registers outside these read as before. *)
Theorem run_ors_path_bits m off :
  peek (final Mapped m) off = Z.lor (peek m off) (bits_written m off).
Proof.
  rewrite final_cases. unfold bits_written.
  destruct (ssm_functional m); [|now rewrite Z.lor_0_r].
  destruct (reaches_key_write m); [destruct (key_verified m)|].
  all: unfold selected, locked, keyed, conditioned,
         glitch_bits, key_bits, select_bits.
  all: split_stored_register off.
  all: repeat through_set_bits; int_constants.
  all: repeat match goal with
              | Hne : ?k <> ?c |- context [?k =? ?c] =>
                  rewrite (proj2 (Z.eqb_neq k c) Hne)
              end.
  all: decide_offsets; lor_solve.
Qed.

(** The guards of a run read registers that the glitch conditioning
    and the key write do not store to. *)
Lemma ssm_functional_kept m :
  ssm_functional (conditioned m) = ssm_functional m
  /\ ssm_functional (keyed m) = ssm_functional m
  /\ ssm_functional (selected m) = ssm_functional m.
Proof.
  unfold ssm_functional, SSM_state, field, selected, locked, keyed,
    conditioned.
  now rewrite !peek_set_bits_ne by (vm_compute; congruence).
Qed.

Lemma reaches_key_write_kept m :
  reaches_key_write (conditioned m) = reaches_key_write m
  /\ reaches_key_write (keyed m) = reaches_key_write m.
Proof.
  rewrite !reaches_key_write_ram.
  destruct (ssm_functional_kept m) as (-> & -> & _).
  unfold ZMK_HWP_state, soft_locks_clear, hard_locks_clear, field, keyed,
    conditioned.
  now rewrite !peek_set_bits_ne by (vm_compute; congruence).
Qed.

Lemma key_verified_kept m : key_verified (keyed m) = key_verified m.
Proof.
  unfold key_verified. rewrite !peek_keyed_key. f_equal. lor_solve.
Qed.

(** After the selection the hard write latch reads as set. *)
Lemma hard_locks_set_after_selection m :
  hard_locks_clear (conditioned (selected m)) = false.
Proof.
  unfold hard_locks_clear.
  assert (Hw : field (conditioned (selected m)) SNVS_LPLR
                     ZMK_WHL_MASK ZMK_WHL_OFFSET = 1).
  { unfold field, selected, locked, keyed, conditioned.
    repeat through_set_bits. int_constants.
    rewrite !Z.land_lor_distr_l.
    change (Z.land ZMK_RHL_MASK ZMK_WHL_MASK) with 0.
    change (Z.land ZMK_WHL_MASK ZMK_WHL_MASK) with 1.
    change (Z.land MKS_HL_MASK ZMK_WHL_MASK) with 0.
    rewrite !Z.lor_0_r.
    replace (Z.lor (Z.land (peek m SNVS_LPLR) ZMK_WHL_MASK) 1) with 1;
      [reflexivity|].
    symmetry. apply lor_eq_iff_bits_le. unfold bits_le.
    change ZMK_WHL_MASK with 1.
    now rewrite <- Z.land_assoc, Z.land_diag. }
  now rewrite Hw.
Qed.

Lemma reaches_key_write_after_selection m :
  reaches_key_write (selected m) = false.
Proof.
  unfold reaches_key_write.
  rewrite hard_locks_set_after_selection. apply andb_false_r.
Qed.

(** After the selection the programming-mode bit and the soft latches
    read as before. *)
Lemma unlocked_fields_after_selection m :
  ZMK_HWP_state (conditioned (selected m)) = ZMK_HWP_state m
  /\ soft_locks_clear (conditioned (selected m)) = soft_locks_clear m.
Proof.
  split.
  - unfold ZMK_HWP_state, field, selected, locked, keyed, conditioned.
    repeat through_set_bits. int_constants.
    rewrite !Z.land_lor_distr_l.
    change (Z.land ZMK_VAL_MASK ZMK_HWP_MASK) with 0.
    change (Z.land ZMK_ECC_EN ZMK_HWP_MASK) with 0.
    change (Z.land MASTER_KEY_SEL_VALUE ZMK_HWP_MASK) with 0.
    now rewrite !Z.lor_0_r.
  - unfold soft_locks_clear, field, selected, locked, keyed, conditioned.
    now rewrite !peek_set_bits_ne by (vm_compute; congruence).
Qed.

(** X9: on plain memory a run that programmed the key locks the next
    one out: run again on the window it left, [main] stops at the
    hard-lock error of line 318, returns -1 and does not store to the
    key register. *)
Theorem second_run_is_locked_out m :
  reaches_key_write m = true ->
  key_verified m = true ->
  exit_status Mapped (final Mapped m) = -1
  /\ printed L318_error_hard_locks (events Mapped (final Mapped m)) = true
  /\ stored_to SNVS_LPZMKRn (events Mapped (final Mapped m)) = false.
Proof.
  intros Hr Hv.
  assert (Hf : ssm_functional m = true).
  { unfold reaches_key_write in Hr.
    destruct (ssm_functional m); [reflexivity|discriminate]. }
  rewrite final_cases, Hf, Hr, Hv.
  rewrite reaches_key_write_ram, Hf in Hr. cbn [andb] in Hr.
  apply andb_true_iff in Hr as [Hr Hhl].
  apply andb_true_iff in Hr as [Hh Hsl].
  apply Z.eqb_eq in Hh.
  destruct (unlocked_fields_after_selection m) as [Eh Es].
  apply hard_lock_path.
  - destruct (ssm_functional_kept m) as (_ & _ & ->). exact Hf.
  - now rewrite Eh.
  - now rewrite Es.
  - apply hard_locks_set_after_selection.
Qed.

(** X10: on plain memory, running [main] again on the window it left
    changes nothing more: whatever the path of the first run, the
    second ends on the same window. *)
Theorem second_run_keeps_window m :
  final Mapped (final Mapped m) = final Mapped m.
Proof.
  rewrite (final_cases m).
  destruct (ssm_functional m) eqn:Hf; [|now rewrite final_cases, Hf].
  destruct (reaches_key_write m) eqn:Hr; [destruct (key_verified m) eqn:Hv|].
  - rewrite final_cases.
    destruct (ssm_functional_kept m) as (_ & _ & ->).
    rewrite Hf, reaches_key_write_after_selection. ram_eq.
  - rewrite final_cases.
    destruct (ssm_functional_kept m) as (_ & -> & _).
    destruct (reaches_key_write_kept m) as (_ & ->).
    rewrite Hf, Hr, key_verified_kept, Hv. ram_eq.
  - rewrite final_cases.
    destruct (ssm_functional_kept m) as (-> & _ & _).
    destruct (reaches_key_write_kept m) as (-> & _).
    rewrite Hf, Hr. ram_eq.
Qed.

(** X11: on plain memory line 150 accumulates: setting the same bits
    twice is setting them once, two settings commute whatever the two
    registers, and after a setting the register has every bit that was
    set. *)
Theorem set_value_accumulates m off value off' value' :
  window_after (set_value_of_SNVS_reg off value ;;
                set_value_of_SNVS_reg off value) m
  = window_after (set_value_of_SNVS_reg off value) m
  /\ window_after (set_value_of_SNVS_reg off value ;;
                   set_value_of_SNVS_reg off' value') m
     = window_after (set_value_of_SNVS_reg off' value' ;;
                     set_value_of_SNVS_reg off value) m
  /\ bits_le (i32 value)
             (peek (window_after (set_value_of_SNVS_reg off value) m) off).
Proof.
  change (window_after (set_value_of_SNVS_reg off value ;;
                        set_value_of_SNVS_reg off value) m)
    with (set_bits (set_bits m off value) off value).
  change (window_after (set_value_of_SNVS_reg off value) m)
    with (set_bits m off value).
  change (window_after (set_value_of_SNVS_reg off value ;;
                        set_value_of_SNVS_reg off' value') m)
    with (set_bits (set_bits m off value) off' value').
  change (window_after (set_value_of_SNVS_reg off' value' ;;
                        set_value_of_SNVS_reg off value) m)
    with (set_bits (set_bits m off' value') off value).
  split; [|split].
  - apply map_eq. intros k. rewrite !lookup_set_bits, !peek_set_bits_eq.
    destruct (k =? off); [f_equal; lor_solve|reflexivity].
  - apply map_eq. intros k.
    destruct (Z.eq_dec off' off) as [->|Hne].
    + rewrite !lookup_set_bits, !peek_set_bits_eq.
      destruct (k =? off); [f_equal; lor_solve|reflexivity].
    + rewrite !lookup_set_bits, !peek_set_bits_ne by congruence.
      destruct (Z.eqb_spec k off'), (Z.eqb_spec k off);
        subst; try congruence; reflexivity.
  - rewrite peek_set_bits_eq. unfold bits_le.
    rewrite Z.lor_comm. apply land_lor_absorb.
Qed.

End PlainMemoryRuns.

(** ** The version registers *)

Section Version.
Context {W : Type} `{RegisterWindow W}.

(** The three fields of a 32-bit word, put back together. *)
Lemma version_fields_recompose p :
  Z.shiftr (Z.land p IP_ID_MASK) IP_ID_OFFSET * 2 ^ 16
  + Z.shiftr (Z.land p MAJOR_REV_MASK) MAJOR_REV_OFFSET * 2 ^ 8
  + Z.shiftr (Z.land p MINOR_REV_MASK) MINOR_REV_OFFSET
  = u32 p.
Proof.
  rewrite !Z.shiftr_land.
  change (Z.shiftr IP_ID_MASK IP_ID_OFFSET) with (Z.ones 16).
  change (Z.shiftr MAJOR_REV_MASK MAJOR_REV_OFFSET) with (Z.ones 8).
  change (Z.shiftr MINOR_REV_MASK MINOR_REV_OFFSET) with (Z.ones 8).
  rewrite !Z.land_ones by lia.
  unfold IP_ID_OFFSET, MAJOR_REV_OFFSET, MINOR_REV_OFFSET, u32.
  rewrite Z.shiftr_0_r, !Z.shiftr_div_pow2 by lia.
  change (2 ^ 32) with (65536 * 65536).
  change (2 ^ 16) with 65536. change (2 ^ 8) with 256.
  rewrite (Z.rem_mul_r p 65536 65536) by lia.
  assert (Hlow : p mod 65536 = p mod 256 + 256 * ((p / 256) mod 256)).
  { change 65536 with (256 * 256). apply Z.rem_mul_r; lia. }
  lia.
Qed.

(** X12: the line of 171 shows the two version registers as unsigned
    words, and the line of 172 the fields IP_ID, MAJOR_REV and
    MINOR_REV of the first: 16, 8 and 8 bits that put together give
    back the whole word. *)
Theorem version_lines_decode_register (w : W) :
  let p := peek w SNVS_HPVIDR1 in
  let ip := Z.shiftr (Z.land p IP_ID_MASK) IP_ID_OFFSET in
  let major := Z.shiftr (Z.land p MAJOR_REV_MASK) MAJOR_REV_OFFSET in
  let minor := Z.shiftr (Z.land p MINOR_REV_MASK) MINOR_REV_OFFSET in
  args_of L171_hpvidr (events Mapped w)
  = Some [u32 p; u32 (peek w SNVS_HPVIDR2)]
  /\ args_of L172_hpvidr1_fields (events Mapped w) = Some [ip; major; minor]
  /\ (0 <= ip < 2 ^ 16 /\ 0 <= major < 2 ^ 8 /\ 0 <= minor < 2 ^ 8)
  /\ ip * 2 ^ 16 + major * 2 ^ 8 + minor = u32 p.
Proof.
  cbv zeta. split; [|split; [|split]].
  - main_paths w; reflexivity.
  - main_paths w; reflexivity.
  - assert (Hb : forall mask offset,
               0 <= mask -> 0 <= offset ->
               0 <= Z.shiftr (Z.land (peek w SNVS_HPVIDR1) mask) offset
               <= Z.shiftr mask offset).
    { intros mask offset Hm Ho.
      pose proof (land_within_mask (peek w SNVS_HPVIDR1) mask Hm) as [Hl Hu].
      split; [now apply Z.shiftr_nonneg|].
      rewrite !Z.shiftr_div_pow2 by lia.
      apply Z.div_le_mono; [apply Z.pow_pos_nonneg; lia|lia]. }
    pose proof (Hb IP_ID_MASK IP_ID_OFFSET ltac:(vm_compute; congruence)
                   ltac:(vm_compute; congruence)) as H1.
    pose proof (Hb MAJOR_REV_MASK MAJOR_REV_OFFSET
                   ltac:(vm_compute; congruence)
                   ltac:(vm_compute; congruence)) as H2.
    pose proof (Hb MINOR_REV_MASK MINOR_REV_OFFSET
                   ltac:(vm_compute; congruence)
                   ltac:(vm_compute; congruence)) as H3.
    change (Z.shiftr IP_ID_MASK IP_ID_OFFSET) with 65535 in H1.
    change (Z.shiftr MAJOR_REV_MASK MAJOR_REV_OFFSET) with 255 in H2.
    change (Z.shiftr MINOR_REV_MASK MINOR_REV_OFFSET) with 255 in H3.
    change (2 ^ 16) with 65536. change (2 ^ 8) with 256. lia.
  - apply version_fields_recompose.
Qed.

End Version.

(** ** The further properties on concrete windows *)

(** [lock_errors_in_source_order] on a window with a soft lock and a
    hard lock both set: only the soft-lock error is printed. *)
Lemma lock_errors_in_source_order_witness :
  ssm_functional ram_both_locked = true
  /\ printed L330_error_hwp (events Mapped ram_both_locked)
     = negb (ZMK_HWP_state (conditioned ram_both_locked) =? 0)
  /\ printed L324_error_soft_locks (events Mapped ram_both_locked)
     = (ZMK_HWP_state (conditioned ram_both_locked) =? 0)
       && negb (soft_locks_clear (conditioned ram_both_locked))
  /\ printed L318_error_hard_locks (events Mapped ram_both_locked)
     = (ZMK_HWP_state (conditioned ram_both_locked) =? 0)
       && soft_locks_clear (conditioned ram_both_locked)
       && negb (hard_locks_clear (conditioned ram_both_locked)).
Proof.
  assert (Hf : ssm_functional ram_both_locked = true)
    by (vm_compute; reflexivity).
  exact (conj Hf (lock_errors_in_source_order ram_both_locked Hf)).
Defined.

(** [zeroized_key_passes_check] on the zeroizing window. *)
Lemma zeroized_key_passes_check_witness :
  (reaches_key_write zeroizing_trusted = true
   /\ key_verified zeroizing_trusted = true
   /\ peek (locked zeroizing_trusted) SNVS_LPZMKRn = 0)
  /\ printed L287_passed_zeroized (events Mapped zeroizing_trusted) = true
  /\ exit_status Mapped zeroizing_trusted = 0.
Proof.
  assert (Hr : reaches_key_write zeroizing_trusted = true)
    by (vm_compute; reflexivity).
  assert (Hv : key_verified zeroizing_trusted = true)
    by (vm_compute; reflexivity).
  assert (Hz : peek (locked zeroizing_trusted) SNVS_LPZMKRn = 0)
    by (vm_compute; reflexivity).
  pose proof (zeroized_key_passes_check zeroizing_trusted Hr Hv Hz) as Hw.
  exact (conj (conj Hr (conj Hv Hz))
              (conj (proj1 Hw) (proj2 (proj2 (proj2 (proj2 Hw)))))).
Defined.

(** [second_run_is_locked_out] after the run on the trusted window. *)
Lemma second_run_is_locked_out_witness :
  (reaches_key_write ram_trusted = true /\ key_verified ram_trusted = true)
  /\ exit_status Mapped (final Mapped ram_trusted) = -1
  /\ printed L318_error_hard_locks (events Mapped (final Mapped ram_trusted))
     = true
  /\ stored_to SNVS_LPZMKRn (events Mapped (final Mapped ram_trusted)) = false.
Proof.
  assert (Hr : reaches_key_write ram_trusted = true)
    by (vm_compute; reflexivity).
  assert (Hv : key_verified ram_trusted = true)
    by (vm_compute; reflexivity).
  exact (conj (conj Hr Hv) (second_run_is_locked_out ram_trusted Hr Hv)).
Defined.

(** The run on the zeroizing window: the key reads back right after the
    write and reads zero after the locks. *)
Example zeroizing_run :
  key_read_back (events Mapped zeroizing_trusted) = Some ZMK_VALUE
  /\ printed L287_passed_zeroized (events Mapped zeroizing_trusted) = true
  /\ printed L290_failed_not_zeroized (events Mapped zeroizing_trusted) = false
  /\ peek (final Mapped zeroizing_trusted) SNVS_LPZMKRn = 0
  /\ exit_status Mapped zeroizing_trusted = 0.
Proof. vm_compute. repeat split. Qed.
